(** * Hedge Edge license client (HedgeEdgeLicense.cpp)

    A shallow embedding of the license DLL used by the MetaTrader 5 expert
    advisor: the URL resolver, the minimal JSON codec, the WinHTTP transport
    with its retry loop, the token cache and the exported entry points.

    Conventions of the embedding:
    - [std::string] is [string] (a sequence of bytes, [ascii]); a caller's
      [char*] buffer is a [list ascii]; a [const char*] argument is an
      [option string] ([None] for [NULL]).
    - [std::wstring] is a list of UTF-16 code units.
    - [int] values are [Z]; conversions that narrow are written out.
    - [std::chrono::system_clock::time_point] is a tick count in [Z]; the
      number of ticks per second is a parameter of the development.
    - WinHTTP and the clock are the outside world: each exported call receives
      a [World] holding the answers the operating system gives during it. *)

From Stdlib Require Import ZArith String Ascii DecimalString Lia Bool.
From stdpp Require Import list strings.
Local Open Scope Z_scope.

(** ** Characters and C strings *)

Definition NUL : ascii := "000"%char.
Definition DQUOTE : ascii := "034"%char.
Definition BACKSLASH : ascii := "092"%char.

(** The value of a byte held in a [char]. The DLL is built for x64 Windows
    (see the header of the source file), where plain [char] is signed. *)
Definition char_value (c : ascii) : Z :=
  let b := Z.of_N (N_of_ascii c) in
  if b <? 128 then b else b - 256.

(** [(unsigned char)c] *)
Definition unsigned_char (c : ascii) : Z := Z.of_N (N_of_ascii c).

(** [s.c_str()] as a C function reads it: the bytes before the first NUL. *)
Fixpoint c_str (s : string) : list ascii :=
  match s with
  | EmptyString => []
  | String c r => if Ascii.eqb c NUL then [] else c :: c_str r
  end.

Abbreviation buffer := (list ascii).

(** [strncpy(dest, src, n)]: exactly [n] bytes of [dest] are written, the
    first [n] bytes of [src], padded with NUL when [src] is shorter. No
    terminator is written when [src] has [n] bytes or more. Writing past the
    end of [dest] is undefined in C; the model then grows the list. *)
Definition strncpy (dest : buffer) (src : list ascii) (n : nat) : buffer :=
  resize n NUL src ++ drop n dest.

(** [if (out) strncpy(out, s.c_str(), n);] *)
Definition strncpy_to (out : option buffer) (s : string) (n : nat) : option buffer :=
  (fun b => strncpy b (c_str s) n) <$> out.

(** What the host reads back from a buffer as a C string. *)
Fixpoint read_c_string (b : buffer) : list ascii :=
  match b with
  | [] => []
  | c :: r => if Ascii.eqb c NUL then [] else c :: read_c_string r
  end.

(** [std::string::empty] *)
Definition str_empty (s : string) : bool :=
  match s with EmptyString => true | String _ _ => false end.

(** ** Numbers *)

Definition INT_MIN : Z := - 2 ^ 31.
Definition INT_MAX : Z := 2 ^ 31 - 1.

(** [static_cast<int>] of a wider integer: reduction modulo 2^32 into the
    signed range. *)
Definition to_int (z : Z) : Z := (z + 2 ^ 31) mod 2 ^ 32 - 2 ^ 31.

(** [std::to_string] on an integer. *)
Definition to_string (z : Z) : string := NilZero.string_of_int (Z.to_int z).

Definition isspace (c : ascii) : bool :=
  match N_of_ascii c with
  | 9%N | 10%N | 11%N | 12%N | 13%N | 32%N => true
  | _ => false
  end.

Definition digit_value (c : ascii) : option Z :=
  let n := Z.of_N (N_of_ascii c) in
  if (48 <=? n) && (n <=? 57) then Some (n - 48) else None.

Fixpoint skip_spaces (s : string) : string :=
  match s with
  | EmptyString => EmptyString
  | String c r => if isspace c then skip_spaces r else s
  end.

(** The decimal digits at the head of [s]: accumulated value and count. *)
Fixpoint read_digits (s : string) (acc : Z) (count : nat) : Z * nat :=
  match s with
  | EmptyString => (acc, count)
  | String c r =>
      match digit_value c with
      | Some d => read_digits r (acc * 10 + d) (S count)
      | None => (acc, count)
      end
  end.

Inductive stoi_result : Type :=
  | StoiValue (v : Z)
  | StoiInvalidArgument   (* throws std::invalid_argument *)
  | StoiOutOfRange.       (* throws std::out_of_range *)

(** [std::stoi(str)], base 10: leading white space, an optional sign, then
    digits; what follows the digits is ignored. No digit at all raises
    [std::invalid_argument]; a value that does not fit [int] raises
    [std::out_of_range]. *)
Definition stoi (str : string) : stoi_result :=
  let s := skip_spaces str in
  let '(negative, s) :=
    match s with
    | String c r =>
        if Ascii.eqb c "-"%char then (true, r)
        else if Ascii.eqb c "+"%char then (false, r)
        else (false, s)
    | EmptyString => (false, s)
    end in
  let '(v, count) := read_digits s 0 0 in
  match count with
  | O => StoiInvalidArgument
  | S _ =>
      let v := if negative then - v else v in
      if (v <? INT_MIN) || (INT_MAX <? v) then StoiOutOfRange else StoiValue v
  end.

(** ** JSON codec *)

Definition hex_digit (d : Z) : ascii :=
  match String.get (Z.to_nat d) "0123456789abcdef" with
  | Some c => c
  | None => "0"%char
  end.

(** [sprintf(buf, "\\u%04x", v)] for [0 <= v < 65536]. *)
Definition sprintf_u04x (v : Z) : string :=
  String BACKSLASH
    (String "u"
       (String (hex_digit (v / 4096 mod 16))
          (String (hex_digit (v / 256 mod 16))
             (String (hex_digit (v / 16 mod 16))
                (String (hex_digit (v mod 16)) EmptyString))))).

(** A backslash followed by one character. *)
Definition backslash_then (c : ascii) : string :=
  String BACKSLASH (String c EmptyString).

(** The body of the [switch] in [EscapeJson]. *)
Definition escape_char (c : ascii) : string :=
  match N_of_ascii c with
  | 34%N => backslash_then DQUOTE
  | 92%N => backslash_then BACKSLASH
  | 8%N => backslash_then "b"
  | 12%N => backslash_then "f"
  | 10%N => backslash_then "n"
  | 13%N => backslash_then "r"
  | 9%N => backslash_then "t"
  | _ =>
      if char_value c <? 32 (* c < 0x20 *)
      then sprintf_u04x (unsigned_char c)
      else String c EmptyString
  end.

Fixpoint EscapeJson (str : string) : string :=
  match str with
  | EmptyString => EmptyString
  | String c r => escape_char c +:+ EscapeJson r
  end.

(** [while (i < json.length() && p(json[i])) i++;] The index moves forward
    at each turn, so [String.length json] turns are enough. *)
Fixpoint advance_while (p : ascii -> bool) (json : string) (turns : nat) (i : nat) : nat :=
  match turns with
  | O => i
  | S t =>
      match String.get i json with
      | Some c => if p c then advance_while p json t (S i) else i
      | None => i
      end
  end.

Definition is_blank (c : ascii) : bool :=
  Ascii.eqb c " "%char || Ascii.eqb c "009"%char.

Definition is_value_char (c : ascii) : bool :=
  negb (Ascii.eqb c ","%char) && negb (Ascii.eqb c "}"%char)
  && negb (Ascii.eqb c "]"%char) && negb (Ascii.eqb c " "%char).

(** The marker searched for: the key between quotes, then a colon. *)
Definition search_key (key : string) : string :=
  String DQUOTE key +:+ String DQUOTE ":".

Definition ExtractJsonValue (json key : string) : string :=
  let searchKey := search_key key in
  match String.index 0 searchKey json with
  | None => EmptyString
  | Some keyPos =>
      let valueStart := (keyPos + String.length searchKey)%nat in
      let valueStart := advance_while is_blank json (String.length json) valueStart in
      if (String.length json <=? valueStart)%nat then EmptyString
      else
        match String.get valueStart json with
        | Some c =>
            if Ascii.eqb c DQUOTE then
              let valueStart := S valueStart in
              match String.index valueStart (String DQUOTE EmptyString) json with
              | None => EmptyString
              | Some valueEnd => substring valueStart (valueEnd - valueStart) json
              end
            else
              let valueEnd := advance_while is_value_char json (String.length json) valueStart in
              substring valueStart (valueEnd - valueStart) json
        | None => EmptyString
        end
  end.

(** A string between double quotes, to write JSON text. *)
Definition quoted (s : string) : string :=
  String DQUOTE s +:+ String DQUOTE EmptyString.

(** ** Global state of the module *)

Abbreviation wstring := (list N).

(** A wide literal [L"..."] whose characters are all ASCII. *)
Definition widen (s : string) : wstring := N_of_ascii <$> list_ascii_of_string s.

Definition INTERNET_DEFAULT_HTTPS_PORT : Z := 443.
Definition INTERNET_SCHEME_HTTPS : Z := 2.
Definition ERROR_WINHTTP_SECURE_FAILURE : Z := 12175.
Definition MAX_RETRIES : nat := 3.
Definition BASE_RETRY_DELAY_MS : Z := 1000.

Record Globals : Type := mkGlobals {
  g_cachedToken : string;
  g_tokenExpiry : Z;            (* time_point, in clock ticks *)
  g_tokenTTL : Z;
  g_endpointUrl : wstring;
  g_endpointHost : wstring;
  g_endpointPath : wstring;
  g_endpointPort : Z;
  g_useHttps : bool;
  g_lastError : string;
  g_hSession : option N;        (* HINTERNET; [None] is [nullptr] *)
  g_initialized : bool
}.

(** The values the globals have when the DLL is loaded. *)
Definition initial : Globals :=
  {| g_cachedToken := EmptyString;
     g_tokenExpiry := 0;
     g_tokenTTL := 0;
     g_endpointUrl := widen "https://api.hedge-edge.com/v1/license/validate";
     g_endpointHost := [];
     g_endpointPath := [];
     g_endpointPort := INTERNET_DEFAULT_HTTPS_PORT;
     g_useHttps := true;
     g_lastError := EmptyString;
     g_hSession := None;
     g_initialized := false |}.

Definition set_lastError (e : string) (g : Globals) : Globals :=
  mkGlobals (g_cachedToken g) (g_tokenExpiry g) (g_tokenTTL g) (g_endpointUrl g)
    (g_endpointHost g) (g_endpointPath g) (g_endpointPort g) (g_useHttps g)
    e (g_hSession g) (g_initialized g).

Definition set_token (token : string) (ttl expiry : Z) (g : Globals) : Globals :=
  mkGlobals token expiry ttl (g_endpointUrl g)
    (g_endpointHost g) (g_endpointPath g) (g_endpointPort g) (g_useHttps g)
    (g_lastError g) (g_hSession g) (g_initialized g).

Definition set_endpoint (host path : wstring) (port : Z) (https : bool) (g : Globals) : Globals :=
  mkGlobals (g_cachedToken g) (g_tokenExpiry g) (g_tokenTTL g) (g_endpointUrl g)
    host path port https
    (g_lastError g) (g_hSession g) (g_initialized g).

Definition set_endpointUrl (url : wstring) (g : Globals) : Globals :=
  mkGlobals (g_cachedToken g) (g_tokenExpiry g) (g_tokenTTL g) url
    (g_endpointHost g) (g_endpointPath g) (g_endpointPort g) (g_useHttps g)
    (g_lastError g) (g_hSession g) (g_initialized g).

Definition set_hSession (h : option N) (g : Globals) : Globals :=
  mkGlobals (g_cachedToken g) (g_tokenExpiry g) (g_tokenTTL g) (g_endpointUrl g)
    (g_endpointHost g) (g_endpointPath g) (g_endpointPort g) (g_useHttps g)
    (g_lastError g) h (g_initialized g).

Definition set_initialized (b : bool) (g : Globals) : Globals :=
  mkGlobals (g_cachedToken g) (g_tokenExpiry g) (g_tokenTTL g) (g_endpointUrl g)
    (g_endpointHost g) (g_endpointPath g) (g_endpointPort g) (g_useHttps g)
    (g_lastError g) (g_hSession g) b.

(** The active endpoint: what [HttpPost] connects to. *)
Record Endpoint : Type := mkEndpoint {
  host : wstring;
  path : wstring;
  port : Z;
  isSecure : bool
}.

Definition endpoint_of (g : Globals) : Endpoint :=
  mkEndpoint (g_endpointHost g) (g_endpointPath g) (g_endpointPort g) (g_useHttps g).

(** The token cache: cached value, TTL and expiry instant. *)
Definition cache_of (g : Globals) : string * Z * Z :=
  (g_cachedToken g, g_tokenTTL g, g_tokenExpiry g).

(** ** The outside world *)

(** What [WinHttpCrackUrl] writes into [URL_COMPONENTS]. *)
Record UrlComponents : Type := mkUrlComponents {
  lpszHostName : wstring;
  lpszUrlPath : wstring;
  nPort : Z;
  nScheme : Z
}.

(** The course of one HTTP exchange, as WinHTTP answers the calls of
    [HttpPost] in order. A failed call carries the [GetLastError()] code. The
    body arrives in chunks, one per turn of the read loop with data
    available: [Some bytes] when [WinHttpReadData] delivers them, [None] when
    it fails, in which case nothing is appended. *)
Inductive HttpExchange : Type :=
  | ConnectFailed (err : Z)
  | OpenRequestFailed (err : Z)
  | AddHeadersFailed (err : Z)
  | SendFailed (err : Z)
  | ReceiveFailed (err : Z)
  | QueryStatusFailed (err : Z)
  | QueryDataFailed (statusCode : Z) (chunks : list (option string)) (err : Z)
  | Completed (statusCode : Z) (chunks : list (option string)).

(** What the operating system answers during one exported call. *)
Record World : Type := mkWorld {
  now : Z;                         (* system_clock::now(), first reading *)
  now_at_store : Z;                (* system_clock::now() when the token is stored *)
  exchange : nat -> HttpExchange;  (* the course of the n-th HttpPost, from 0 *)
  WinHttpOpen : option N;          (* the session handle, or NULL *)
  open_error : Z                   (* GetLastError() after a failed WinHttpOpen *)
}.

Inductive Event : Type :=
  | EvSleep (ms : Z)
  | EvHttpPost (requestBody : string).

(** The locals of [ValidateLicense] that [HttpPost] writes through
    references, and the loop flag. *)
Record Locals : Type := mkLocals {
  success : bool;
  responseBody : string;
  httpStatus : Z
}.

Inductive exception : Type :=
  | invalid_argument
  | out_of_range.

Inductive outcome : Type :=
  | Returns (code : Z)
  | Throws (e : exception).

(** An exported call seen from the host: how it ends, the two output
    buffers, the globals it leaves and what it did to the outside. *)
Record Result : Type := mkResult {
  ret : outcome;
  tokenOut : option buffer;     (* the caller's outToken after the call *)
  errorOut : option buffer;     (* the caller's outError after the call *)
  globals : Globals;
  events : list Event
}.

(** ** Transport *)

(** The bytes appended to [responseBody] by the read loop. *)
Fixpoint read_chunks (chunks : list (option string)) : string :=
  match chunks with
  | [] => EmptyString
  | Some bytes :: r => bytes +:+ read_chunks r
  | None :: r => read_chunks r
  end.

(** The text stored in [g_lastError] before the [throw] that ends a failed
    exchange; [None] when the [try] block runs to its end. *)
Definition failure_text (x : HttpExchange) : option string :=
  match x with
  | ConnectFailed err => Some ("Failed to connect to server: " +:+ to_string err)
  | OpenRequestFailed err => Some ("Failed to create request: " +:+ to_string err)
  | AddHeadersFailed err => Some ("Failed to add headers: " +:+ to_string err)
  | SendFailed err =>
      if err =? ERROR_WINHTTP_SECURE_FAILURE
      then Some "TLS/SSL certificate error"
      else Some ("Failed to send request: " +:+ to_string err)
  | ReceiveFailed err => Some ("Failed to receive response: " +:+ to_string err)
  | QueryStatusFailed err => Some ("Failed to get status code: " +:+ to_string err)
  | QueryDataFailed _ _ err => Some ("Failed to query data: " +:+ to_string err)
  | Completed _ _ => None
  end.

(** What the [try] block has written to [httpStatus] and [responseBody] by
    the time it ends: nothing until the status code has been read. *)
Definition written_by (x : HttpExchange) (l : Locals) : Z * string :=
  match x with
  | QueryDataFailed statusCode chunks _
  | Completed statusCode chunks => (to_int statusCode, read_chunks chunks)
  | _ => (httpStatus l, responseBody l)
  end.

(** [success = HttpPost(requestBody, responseBody, httpStatus)] *)
Definition HttpPost (x : HttpExchange) (l : Locals) (g : Globals) : Locals * Globals :=
  match g_hSession g with
  | None =>
      (mkLocals false (responseBody l) (httpStatus l),
       set_lastError "HTTP session not initialized" g)
  | Some _ =>
      let '(status, body) := written_by x l in
      match failure_text x with
      | Some text => (mkLocals false body status, set_lastError text g)
      | None => (mkLocals true body status, g)
      end
  end.

(** The retry loop of [ValidateLicense]:
    [for (attempt = 0; attempt < MAX_RETRIES && !success; attempt++)],
    with [remaining = MAX_RETRIES - attempt]. *)
Fixpoint RetryLoop (x : nat -> HttpExchange) (requestBody : string)
    (remaining attempt : nat) (l : Locals) (g : Globals) (evs : list Event)
    : Locals * Globals * list Event :=
  match remaining with
  | O => (l, g, evs)
  | S remaining' =>
      if success l then (l, g, evs)
      else
        let evs :=
          if (0 <? attempt)%nat
          then evs ++ [EvSleep (BASE_RETRY_DELAY_MS * Z.shiftl 1 (Z.of_nat attempt - 1))]
          else evs in
        let '(l, g) := HttpPost (x attempt) l g in
        RetryLoop x requestBody remaining' (S attempt) l g (evs ++ [EvHttpPost requestBody])
  end.

(** The request payload built by [ValidateLicense]. *)
Definition request_json (key account broker deviceId : option string) : string :=
  "{"
  +:+ quoted "licenseKey" +:+ ":" +:+ quoted (EscapeJson (default EmptyString key)) +:+ ","
  +:+ quoted "accountId" +:+ ":" +:+ quoted (EscapeJson (default EmptyString account)) +:+ ","
  +:+ quoted "broker" +:+ ":" +:+ quoted (EscapeJson (default EmptyString broker)) +:+ ","
  +:+ quoted "deviceId" +:+ ":" +:+ quoted (EscapeJson (default EmptyString deviceId)) +:+ ","
  +:+ quoted "platform" +:+ ":" +:+ quoted "MT5" +:+ ","
  +:+ quoted "version" +:+ ":" +:+ quoted "1.0.0"
  +:+ "}".

(** Sleep time accumulated before each [HttpPost] of a trace. *)
Fixpoint delays_from (acc : Z) (evs : list Event) : list Z :=
  match evs with
  | [] => []
  | EvSleep ms :: r => delays_from (acc + ms) r
  | EvHttpPost _ :: r => acc :: delays_from 0 r
  end.

Definition delays_before_attempts (evs : list Event) : list Z := delays_from 0 evs.

Definition is_post (e : Event) : bool :=
  match e with EvHttpPost _ => true | EvSleep _ => false end.

(** Number of [HttpPost] invocations in a trace. *)
Definition attempts (evs : list Event) : nat := length (filter is_post evs).

(** ** Exported functions *)

Section Library.

(** [WinHttpCrackUrl]: the components of a URL, or [None] when it fails. *)
Variable WinHttpCrackUrl : wstring -> option UrlComponents.

(** [MultiByteToWideChar(CP_UTF8, ...)] on a non-empty C string: the wide
    string without its terminator, or [None] when the length it reports is
    not positive. *)
Variable MultiByteToWideChar : string -> option wstring.

(** Ticks of [std::chrono::system_clock] in one second. *)
Variable ticks_per_second : positive.

Definition Utf8ToWide (utf8 : option string) : wstring :=
  match utf8 with
  | None => []
  | Some s =>
      if str_empty s then []
      else match MultiByteToWideChar s with
           | None => []
           | Some wide => wide
           end
  end.

Definition ParseUrl (url : wstring) (g : Globals) : bool * Globals :=
  match WinHttpCrackUrl url with
  | None => (false, set_lastError "Failed to parse URL" g)
  | Some urlComp =>
      (true,
       set_endpoint (lpszHostName urlComp) (lpszUrlPath urlComp) (nPort urlComp)
         (nScheme urlComp =? INTERNET_SCHEME_HTTPS) g)
  end.

Definition InitializeLibrary (w : World) (g : Globals) : Z * Globals :=
  if g_initialized g then (0, g)
  else
    let g := set_hSession (WinHttpOpen w) g in
    match g_hSession g with
    | None =>
        (-1, set_lastError ("Failed to create HTTP session: " +:+ to_string (open_error w)) g)
    | Some _ =>
        let '(parsed, g) := ParseUrl (g_endpointUrl g) g in
        if parsed then (0, set_initialized true g)
        else (-2, set_hSession None g)
    end.

Definition ShutdownLibrary (g : Globals) : Globals :=
  if negb (g_initialized g) then g
  else
    let g := set_token EmptyString 0 (g_tokenExpiry g) g in
    let g := set_hSession None g in
    set_initialized false g.

Definition SetEndpoint (url : option string) (g : Globals) : Globals :=
  match url with
  | None => g
  | Some s =>
      if str_empty s then g
      else
        let wideUrl := Utf8ToWide url in
        let '(parsed, g) := ParseUrl wideUrl g in
        if parsed then set_endpointUrl wideUrl g else g
  end.

(** The block "Update endpoint if provided" of [ValidateLicense]. *)
Definition apply_endpoint_override (endpointUrl : option string) (g : Globals) : Globals :=
  match endpointUrl with
  | None => g
  | Some s =>
      if str_empty s then g
      else
        match Utf8ToWide endpointUrl with
        | [] => g
        | wideUrl => snd (ParseUrl wideUrl g)
        end
  end.

(** [ValidateLicense] from the end of the retry loop on: the checks of the
    transport result and of the HTTP status, the reading of the response and
    the caching of the token. *)
Definition after_transport (w : World) (outToken outError : option buffer)
    (l : Locals) (g : Globals) (evs : list Event) : Result :=
  if negb (success l) then
    mkResult (Returns (-2)) outToken (strncpy_to outError (g_lastError g) 255) g evs
  else if negb (httpStatus l =? 200) then
    let g := set_lastError
               ("HTTP " +:+ to_string (httpStatus l) +:+ ": " +:+ responseBody l) g in
    mkResult (Returns (-3)) outToken (strncpy_to outError (g_lastError g) 255) g evs
  else
    let valid := ExtractJsonValue (responseBody l) "valid" in
    if negb (String.eqb valid "true") then
      let message := ExtractJsonValue (responseBody l) "message" in
      let g := set_lastError (if str_empty message then "License invalid" else message) g in
      let outError := strncpy_to outError (g_lastError g) 255 in
      let g := set_token EmptyString 0 (g_tokenExpiry g) g in
      mkResult (Returns (-4)) outToken outError g evs
    else
      let token := ExtractJsonValue (responseBody l) "token" in
      let ttlStr := ExtractJsonValue (responseBody l) "ttlSeconds" in
      let parsed :=
        if negb (str_empty ttlStr) then stoi ttlStr else StoiValue 900 in
      match parsed with
      | StoiInvalidArgument => mkResult (Throws invalid_argument) outToken outError g evs
      | StoiOutOfRange => mkResult (Throws out_of_range) outToken outError g evs
      | StoiValue ttl =>
          let ttl := if ttl <=? 0 then 900 else ttl in
          let g := set_token token ttl
                     (now_at_store w + ttl * Z.pos ticks_per_second) g in
          let outToken := strncpy_to outToken token 511 in
          let g := set_lastError EmptyString g in
          mkResult (Returns 0) outToken outError g evs
      end.

Definition ValidateLicense (w : World)
    (key account broker deviceId endpointUrl : option string)
    (outToken outError : option buffer) (g : Globals) : Result :=
  if negb (g_initialized g) then
    mkResult (Returns (-1)) outToken
      (strncpy_to outError "Library not initialized" 255) g []
  else if negb (str_empty (g_cachedToken g)) && (now w <? g_tokenExpiry g) then
    mkResult (Returns 0) (strncpy_to outToken (g_cachedToken g) 511) outError g []
  else
    let g := apply_endpoint_override endpointUrl g in
    let requestBody := request_json key account broker deviceId in
    let '(l, g, evs) :=
      RetryLoop (exchange w) requestBody MAX_RETRIES 0
        (mkLocals false EmptyString 0) g [] in
    after_transport w outToken outError l g evs.

Definition GetCachedToken (w : World) (outToken : option buffer) (tokenLen : Z)
    (g : Globals) : Z * option buffer :=
  if str_empty (g_cachedToken g) then (-1, outToken)
  else if g_tokenExpiry g <=? now w then (-2, outToken)
  else
    match outToken with
    | Some b =>
        if 0 <? tokenLen then
          let b := strncpy b (c_str (g_cachedToken g)) (Z.to_nat (tokenLen - 1)) in
          (0, Some (<[Z.to_nat (tokenLen - 1) := NUL]> b))
        else (0, outToken)
    | None => (0, outToken)
    end.

Definition IsTokenValid (w : World) (g : Globals) : Z :=
  if str_empty (g_cachedToken g) then 0
  else if now w <? g_tokenExpiry g then 1 else 0.

Definition GetTokenTTL (w : World) (g : Globals) : Z :=
  if str_empty (g_cachedToken g) then 0
  else if g_tokenExpiry g <=? now w then 0
  else
    (* duration_cast<seconds>: division truncating toward zero *)
    let remaining := Z.quot (g_tokenExpiry g - now w) (Z.pos ticks_per_second) in
    to_int remaining.

Definition ClearCache (g : Globals) : Globals :=
  set_lastError EmptyString (set_token EmptyString 0 0 g).

Definition GetLastError (outError : option buffer) (errorLen : Z) (g : Globals)
    : option buffer :=
  match outError with
  | Some b =>
      if 0 <? errorLen then
        let b := strncpy b (c_str (g_lastError g)) (Z.to_nat (errorLen - 1)) in
        Some (<[Z.to_nat (errorLen - 1) := NUL]> b)
      else outError
  | None => outError
  end.

(** *** The module as a state machine *)

Inductive Call : Type :=
  | CallInitializeLibrary
  | CallShutdownLibrary
  | CallSetEndpoint (url : option string)
  | CallValidateLicense (key account broker deviceId endpointUrl : option string)
      (outToken outError : option buffer)
  | CallGetCachedToken (outToken : option buffer) (tokenLen : Z)
  | CallIsTokenValid
  | CallGetTokenTTL
  | CallClearCache
  | CallGetLastError (outError : option buffer) (errorLen : Z).

(** The globals after an exported call. *)
Definition exec (w : World) (c : Call) (g : Globals) : Globals :=
  match c with
  | CallInitializeLibrary => snd (InitializeLibrary w g)
  | CallShutdownLibrary => ShutdownLibrary g
  | CallSetEndpoint url => SetEndpoint url g
  | CallValidateLicense key account broker deviceId endpointUrl outToken outError =>
      globals (ValidateLicense w key account broker deviceId endpointUrl outToken outError g)
  | CallGetCachedToken _ _ => g
  | CallIsTokenValid => g
  | CallGetTokenTTL => g
  | CallClearCache => ClearCache g
  | CallGetLastError _ _ => g
  end.

(** The states the host can bring the module to. *)
Inductive reachable : Globals -> Prop :=
  | reachable_initial : reachable initial
  | reachable_step (g : Globals) (w : World) (c : Call) :
      reachable g -> reachable (exec w c g).

(** What holds of the globals between exported calls. *)
Definition consistent (g : Globals) : Prop :=
  (g_initialized g = true -> g_hSession g <> None)
  /\ (str_empty (g_cachedToken g) = false -> g_initialized g = true).

(** The cache holds a fresh token at the instant [t]. *)
Definition fresh (t : Z) (g : Globals) : Prop :=
  str_empty (g_cachedToken g) = false /\ t < g_tokenExpiry g.

(** [n] is the first attempt whose exchange completes; it is answered with
    [statusCode] and the body read from [chunks]. *)
Definition completes_at (w : World) (n : nat) (statusCode : Z) (chunks : list (option string)) : Prop :=
  (n < MAX_RETRIES)%nat
  /\ (forall j, (j < n)%nat -> failure_text (exchange w j) <> None)
  /\ exchange w n = Completed statusCode chunks.

(** The remaining time to live as the specification words it:
    [ceil(expiresAt - now)] in seconds, bounded below by 0. *)
Definition ceil_remaining_seconds (expiresAt t : Z) : Z :=
  Z.max 0 ((expiresAt - t + Z.pos ticks_per_second - 1) / Z.pos ticks_per_second).

End Library.

(** ** A concrete setting

    A world to run the exported functions in: a resolver that knows the
    default endpoint only, a conversion that widens bytes one by one and a
    clock of 10,000,000 ticks per second (100 ns ticks). *)
Module Sample.

Definition default_url : wstring :=
  widen "https://api.hedge-edge.com/v1/license/validate".

Definition crack (url : wstring) : option UrlComponents :=
  if bool_decide (url = default_url)
  then Some (mkUrlComponents (widen "api.hedge-edge.com") (widen "/v1/license/validate")
               443 INTERNET_SCHEME_HTTPS)
  else None.

Definition mb (s : string) : option wstring := Some (widen s).

Definition tps : positive := 10000000%positive.

(** A world whose clock reads [t], then [t'] and whose transport follows [x]. *)
Definition world (t t' : Z) (x : nat -> HttpExchange) : World :=
  mkWorld t t' x (Some 1%N) 0.

Definition unreachable_server : nat -> HttpExchange := fun _ => ConnectFailed 12029.

Definition answers (statusCode : Z) (body : string) : nat -> HttpExchange :=
  fun _ => Completed statusCode [Some body].

(** The server answers at the third attempt only. *)
Definition answers_third (statusCode : Z) (body : string) : nat -> HttpExchange :=
  fun n => match n with
           | O => ConnectFailed 12029
           | S O => SendFailed ERROR_WINHTTP_SECURE_FAILURE
           | _ => Completed statusCode [Some body]
           end.

Definition body_valid : string :=
  "{" +:+ quoted "valid" +:+ ":true," +:+ quoted "token" +:+ ":" +:+ quoted "tok-abc"
  +:+ "," +:+ quoted "ttlSeconds" +:+ ":60}".

Definition body_no_ttl : string :=
  "{" +:+ quoted "valid" +:+ ":true," +:+ quoted "token" +:+ ":" +:+ quoted "tok-abc" +:+ "}".


Definition body_bad_ttl : string :=
  "{" +:+ quoted "valid" +:+ ":true," +:+ quoted "token" +:+ ":" +:+ quoted "tok-abc"
  +:+ "," +:+ quoted "ttlSeconds" +:+ ":" +:+ quoted "soon" +:+ "}".

Definition body_invalid : string :=
  "{" +:+ quoted "valid" +:+ ":false," +:+ quoted "message" +:+ ":"
  +:+ quoted "License expired" +:+ "}".

Definition body_no_verdict : string := "{}".

(** The module after a successful [InitializeLibrary]. *)
Definition ready : Globals :=
  exec crack mb tps (world 0 0 unreachable_server) CallInitializeLibrary initial.

(** The module after a validation at tick 0 that cached "tok-abc" for 60 s. *)
Definition holding_token : Globals :=
  exec crack mb tps (world 0 0 (answers 200 body_valid))
    (CallValidateLicense (Some "KEY1") (Some "ACC1") (Some "BROKERX") (Some "DEV1")
       None None None)
    ready.

(** A caller's buffer of [n] bytes holding junk. *)
Definition junk (n : nat) : buffer := replicate n "#"%char.

End Sample.

(** The escaper as the specification words it: the seven named characters
    and the bytes below 0x20 are rewritten, every other byte is kept. *)
Definition escape_char_spec (c : ascii) : string :=
  match N_of_ascii c with
  | 34%N => backslash_then DQUOTE
  | 92%N => backslash_then BACKSLASH
  | 8%N => backslash_then "b"
  | 12%N => backslash_then "f"
  | 10%N => backslash_then "n"
  | 13%N => backslash_then "r"
  | 9%N => backslash_then "t"
  | _ =>
      if unsigned_char c <? 32
      then sprintf_u04x (unsigned_char c)
      else String c EmptyString
  end.

Fixpoint escape_spec (str : string) : string :=
  match str with
  | EmptyString => EmptyString
  | String c r => escape_char_spec c +:+ escape_spec r
  end.

(** Every globals field but [g_lastError] is the same in [g] and [g']. *)
Definition same_but_lastError (g g' : Globals) : Prop :=
  g' = set_lastError (g_lastError g') g.

(** ** Process detach *)

Inductive Reason : Type :=
  | DLL_PROCESS_ATTACH
  | DLL_PROCESS_DETACH
  | DLL_THREAD_ATTACH
  | DLL_THREAD_DETACH.

(** [DllMain]: on process detach the library is shut down if that has not
    been done; the other notifications change nothing. *)
Definition DllMain (ul_reason_for_call : Reason) (g : Globals) : Globals :=
  match ul_reason_for_call with
  | DLL_PROCESS_DETACH => if g_initialized g then ShutdownLibrary g else g
  | _ => g
  end.

(** ** Vocabulary for the properties of the codec and of the state *)

Definition is_hex (c : ascii) : bool :=
  let n := Z.of_N (N_of_ascii c) in
  ((48 <=? n) && (n <=? 57)) || ((97 <=? n) && (n <=? 102)) || ((65 <=? n) && (n <=? 70)).

(** The characters allowed after a backslash in a JSON string, [u] apart. *)
Definition is_simple_escape (c : ascii) : bool :=
  match N_of_ascii c with
  | 34%N | 92%N | 47%N | 98%N | 102%N | 110%N | 114%N | 116%N => true
  | _ => false
  end.

(** The text between the quotes of a JSON string (RFC 8259): no raw quote,
    no raw byte below 0x20, and every backslash starts one of the escapes.
    [pending] is 0 outside an escape, 5 after a backslash and otherwise the
    number of hexadecimal digits still due after [u]. *)
Fixpoint json_string_chars (pending : nat) (s : string) : bool :=
  match s with
  | EmptyString => Nat.eqb pending 0
  | String c r =>
      match pending with
      | O =>
          if Ascii.eqb c BACKSLASH then json_string_chars 5 r
          else if Ascii.eqb c DQUOTE then false
          else if unsigned_char c <? 32 then false
          else json_string_chars 0 r
      | 5%nat =>
          if is_simple_escape c then json_string_chars 0 r
          else if Ascii.eqb c "u" then json_string_chars 4 r
          else false
      | S k => if is_hex c then json_string_chars k r else false
      end
  end.

(** A printable 7-bit character other than the quote and the backslash. *)
Definition plain (c : ascii) : bool :=
  let n := Z.of_N (N_of_ascii c) in
  (32 <=? n) && (n <=? 127) && negb (Ascii.eqb c DQUOTE) && negb (Ascii.eqb c BACKSLASH).

(** The characters of [s] before its first double quote. *)
Fixpoint until_quote (s : string) : string :=
  match s with
  | EmptyString => EmptyString
  | String c r => if Ascii.eqb c DQUOTE then EmptyString else String c (until_quote r)
  end.

(** The components as [ParseUrl] stores them. *)
Definition endpoint_from (urlComp : UrlComponents) : Endpoint :=
  mkEndpoint (lpszHostName urlComp) (lpszUrlPath urlComp) (nPort urlComp)
    (nScheme urlComp =? INTERNET_SCHEME_HTTPS).

(** What holds of the globals between exported calls, in full: the session
    handle is held exactly while the module is initialized; a cached token
    belongs to an initialized module and has a positive TTL; the TTL is an
    [int] that is never negative; and the URL and the endpoint of an
    initialized module come from successful parses. *)
Definition well_formed (crack : wstring -> option UrlComponents) (g : Globals) : Prop :=
  (g_initialized g = true <-> g_hSession g <> None)
  /\ (str_empty (g_cachedToken g) = false -> g_initialized g = true /\ 0 < g_tokenTTL g)
  /\ 0 <= g_tokenTTL g <= INT_MAX
  /\ (g_initialized g = true -> exists urlComp, crack (g_endpointUrl g) = Some urlComp)
  /\ (g_initialized g = true ->
      exists url urlComp, crack url = Some urlComp /\ endpoint_of g = endpoint_from urlComp).

(** More of the concrete setting: a resolver that also knows a staging
    endpoint, and a server that issues a token of 600 bytes. *)
Module Scenario.

Definition staging_url : string := "https://staging.hedge-edge.com/validate".

Definition crack (url : wstring) : option UrlComponents :=
  if bool_decide (url = widen staging_url)
  then Some (mkUrlComponents (widen "staging.hedge-edge.com") (widen "/validate")
               443 INTERNET_SCHEME_HTTPS)
  else Sample.crack url.

Definition long_token : string := string_of_list_ascii (replicate 600 "x"%char).

Definition body_long_token : string :=
  "{" +:+ quoted "valid" +:+ ":true," +:+ quoted "token" +:+ ":" +:+ quoted long_token
  +:+ "," +:+ quoted "ttlSeconds" +:+ ":60}".


(** The module after a validation at tick 0 that cached the long token. *)
Definition holding_long_token : Globals :=
  exec Sample.crack Sample.mb Sample.tps
    (Sample.world 0 0 (Sample.answers 200 body_long_token))
    (CallValidateLicense (Some "KEY1") (Some "ACC1") (Some "BROKERX") (Some "DEV1")
       None None None)
    Sample.ready.

(** The module initialized with the resolver above. *)
Definition ready : Globals :=
  exec crack Sample.mb Sample.tps (Sample.world 0 0 Sample.unreachable_server)
    CallInitializeLibrary initial.

End Scenario.

(** * Properties *)

(** ** C strings and buffers *)

Lemma c_str_NUL_free (s : string) :
  Forall (fun c => Ascii.eqb c NUL = false) (c_str s).
Proof.
  induction s as [|c s IH]; simpl; [constructor|].
  destruct (Ascii.eqb c NUL) eqn:E; [constructor|].
  constructor; assumption.
Qed.

Lemma read_c_string_app (l r : list ascii) :
  Forall (fun c => Ascii.eqb c NUL = false) l ->
  read_c_string (l ++ r) = l ++ read_c_string r.
Proof.
  induction 1 as [|c l Hc _ IH]; simpl; [reflexivity|].
  rewrite Hc, IH. reflexivity.
Qed.

Lemma read_c_string_length (b : buffer) :
  (length (read_c_string b) <= length b)%nat.
Proof.
  induction b as [|c b IH]; simpl; [lia|].
  destruct (Ascii.eqb c NUL); simpl; lia.
Qed.

(** Storing a terminator at index [i] cuts the C string at [i]. *)
Lemma read_c_string_terminate (b : buffer) (i : nat) :
  read_c_string (<[i := NUL]> b) = take i (read_c_string b).
Proof.
  revert i. induction b as [|c b IH]; intros [|i]; simpl; try reflexivity.
  destruct (Ascii.eqb c NUL); simpl; [reflexivity|].
    rewrite IH. reflexivity.
Qed.

Lemma strncpy_length (dest : buffer) (src : list ascii) (n : nat) :
  (n <= length dest)%nat -> length (strncpy dest src n) = length dest.
Proof.
  intros Hn. unfold strncpy.
  rewrite length_app, length_resize, length_drop. lia.
Qed.

(** A source shorter than the count arrives whole and terminated. *)
Lemma read_strncpy_short (dest : buffer) (src : list ascii) (n : nat) :
  Forall (fun c => Ascii.eqb c NUL = false) src ->
  (length src < n)%nat ->
  read_c_string (strncpy dest src n) = src.
Proof.
  intros Hfree Hlen. unfold strncpy.
  rewrite resize_ge by lia.
  destruct (n - length src)%nat as [|k] eqn:E; [lia|].
  simpl replicate. rewrite <- app_assoc, read_c_string_app by assumption.
  simpl. apply app_nil_r.
Qed.

(** In all cases the first [n] bytes read back are the first [n] of the source. *)
Lemma take_read_strncpy (dest : buffer) (src : list ascii) (n : nat) :
  Forall (fun c => Ascii.eqb c NUL = false) src ->
  take n (read_c_string (strncpy dest src n)) = take n src.
Proof.
  intros Hfree.
  destruct (decide (length src < n)%nat) as [Hlt|Hge].
  - rewrite read_strncpy_short by assumption. reflexivity.
  - unfold strncpy. rewrite resize_le by lia.
    rewrite read_c_string_app by (apply Forall_take; assumption).
    apply take_app_length'. rewrite length_take. lia.
Qed.

(** ** JSON codec *)

Lemma escape_char_ascii (c : ascii) :
  unsigned_char c < 128 -> escape_char c = escape_char_spec c.
Proof.
  intros H. unfold escape_char, escape_char_spec, char_value, unsigned_char in *.
  destruct (Z.of_N (N_of_ascii c) <? 128) eqn:E; [reflexivity|].
  apply Z.ltb_ge in E. lia.
Qed.

(** On input made of 7-bit bytes the escaper does what the specification
    says. *)
Lemma EscapeJson_ascii (s : string) :
  Forall (fun c => unsigned_char c < 128) (list_ascii_of_string s) ->
  EscapeJson s = escape_spec s.
Proof.
  induction s as [|c s IH]; simpl; intros H; [reflexivity|].
  inversion H; subst.
  rewrite escape_char_ascii, IH by assumption. reflexivity.
Qed.

(** A byte of 0x80 or more is negative as a [char], hence below 0x20. *)
Lemma escape_char_high (c : ascii) :
  128 <= unsigned_char c ->
  escape_char c = sprintf_u04x (unsigned_char c)
  /\ escape_char_spec c = String c EmptyString.
Proof.
  destruct c as [[] [] [] [] [] [] [] []]; vm_compute; intros H;
    first [ split; reflexivity | exfalso; apply H; reflexivity ].
Qed.

(** C8: the escaper is to leave every byte that is not a quote, a backslash
    or below 0x20 as it is; the byte 0xE9 (part of a UTF-8 sequence) is
    instead rewritten to the six characters backslash, u, 0, 0, e, 9. *)
Theorem EscapeJson_rewrites_byte_0xE9 :
  EscapeJson (String "233" EmptyString) = String BACKSLASH "u00e9"
  /\ escape_spec (String "233" EmptyString) = String "233" EmptyString.
Proof. split; reflexivity. Qed.

(** The scanning loop stops where the code's [while] does: the index only
    moves forward over characters that satisfy the test, and it rests on the
    end of the text or on a character that fails the test. *)
Lemma get_Some_lt (s : string) (i : nat) (c : ascii) :
  String.get i s = Some c -> (i < String.length s)%nat.
Proof.
  revert i. induction s as [|a s IH]; intros [|i] H; simpl in *;
    try discriminate; [lia|].
  apply IH in H. lia.
Qed.

Lemma advance_while_stops (p : ascii -> bool) (json : string) (turns i : nat) :
  (String.length json - i <= turns)%nat ->
  let j := advance_while p json turns i in
  (i <= j)%nat
  /\ (forall c, String.get j json = Some c -> p c = false)
  /\ (forall k c, (i <= k < j)%nat -> String.get k json = Some c -> p c = true).
Proof.
  revert i. induction turns as [|t IH]; intros i Hturns; simpl.
  - split; [lia|]. split; [|intros; lia].
    intros c Hc. apply get_Some_lt in Hc. lia.
  - destruct (String.get i json) as [c|] eqn:Hget.
    + destruct (p c) eqn:Hp.
      * destruct (IH (S i)) as (Hle & Hstop & Hrun); [lia|].
        split; [lia|]. split; [assumption|].
        intros k c' Hk Hc'.
        destruct (decide (k = i)) as [->|Hne]; [congruence|].
        apply (Hrun k); [lia | assumption].
      * split; [lia|]. split; [congruence | intros; lia].
    + split; [lia|]. split; [congruence | intros; lia].
Qed.

(** The examples of the specification for the value scanner. *)
Example ExtractJsonValue_examples :
  let json := "{" +:+ quoted "a" +:+ ":" +:+ quoted "1" +:+ "," +:+ quoted "token" +:+ ":"
              +:+ quoted "abc123" +:+ "," +:+ quoted "b" +:+ ":2}" in
  ExtractJsonValue json "token" = "abc123"
  /\ ExtractJsonValue json "ttlSeconds" = EmptyString
  /\ ExtractJsonValue json "b" = "2".
Proof. repeat split; reflexivity. Qed.

(** ** Token cache queries *)

(** C10: with a fresh token and a length of at least 1, [GetCachedToken]
    returns 0 whatever the length of the token; a buffer of at least
    [tokenLen] bytes then reads as the first [tokenLen - 1] bytes of the
    token, a terminator stands at index [tokenLen - 1] and nothing is written
    past it. Without a buffer nothing is copied. *)
Theorem GetCachedToken_truncates (w : World) (g : Globals)
    (outToken : option buffer) (tokenLen : Z) :
  fresh (now w) g ->
  1 <= tokenLen ->
  fst (GetCachedToken w outToken tokenLen g) = 0
  /\ (outToken = None -> snd (GetCachedToken w outToken tokenLen g) = None)
  /\ (forall b,
        outToken = Some b ->
        tokenLen <= Z.of_nat (length b) ->
        exists b',
          snd (GetCachedToken w outToken tokenLen g) = Some b'
          /\ length b' = length b
          /\ b' !! Z.to_nat (tokenLen - 1) = Some NUL
          /\ read_c_string b' = take (Z.to_nat (tokenLen - 1)) (c_str (g_cachedToken g))
          /\ drop (Z.to_nat tokenLen) b' = drop (Z.to_nat tokenLen) b).
Proof.
  intros [Htok Hfresh] Hlen. unfold GetCachedToken.
  rewrite Htok.
  destruct (g_tokenExpiry g <=? now w) eqn:E; [apply Z.leb_le in E; lia|].
  destruct (0 <? tokenLen) eqn:E'; [|apply Z.ltb_ge in E'; lia].
  split; [destruct outToken; reflexivity|].
  split; [intros ->; reflexivity|].
  intros b -> Hbuf. simpl.
  set (n := Z.to_nat (tokenLen - 1)).
  assert (Hn : (n < length b)%nat) by (subst n; lia).
  eexists. split; [reflexivity|].
  repeat split.
  - rewrite length_insert, strncpy_length by lia. reflexivity.
  - apply list_lookup_insert_eq. rewrite strncpy_length by lia. assumption.
  - rewrite read_c_string_terminate.
    apply take_read_strncpy, c_str_NUL_free.
  - replace (Z.to_nat tokenLen) with (S n) by (subst n; lia).
    rewrite drop_insert_lt by lia. unfold strncpy.
    rewrite drop_app_ge by (rewrite length_resize; lia).
    rewrite length_resize, drop_drop. f_equal. lia.
Qed.

Lemma GetCachedToken_truncates_witness :
  fresh (now (Sample.world 5 5 Sample.unreachable_server)) Sample.holding_token
  /\ 1 <= 4
  /\ 4 <= Z.of_nat (length (Sample.junk 6))
  /\ fst (GetCachedToken (Sample.world 5 5 Sample.unreachable_server)
            (Some (Sample.junk 6)) 4 Sample.holding_token) = 0
  /\ exists b',
       snd (GetCachedToken (Sample.world 5 5 Sample.unreachable_server)
              (Some (Sample.junk 6)) 4 Sample.holding_token) = Some b'
       /\ length b' = length (Sample.junk 6)
       /\ b' !! Z.to_nat (4 - 1) = Some NUL
       /\ read_c_string b' = take (Z.to_nat (4 - 1)) (c_str (g_cachedToken Sample.holding_token))
       /\ drop (Z.to_nat 4) b' = drop (Z.to_nat 4) (Sample.junk 6).
Proof.
  assert (H1 : fresh (now (Sample.world 5 5 Sample.unreachable_server)) Sample.holding_token)
    by (split; reflexivity).
  assert (H2 : 1 <= 4) by (intro H; discriminate H).
  assert (H3 : 4 <= Z.of_nat (length (Sample.junk 6))) by (intro H; discriminate H).
  destruct (GetCachedToken_truncates (Sample.world 5 5 Sample.unreachable_server)
              Sample.holding_token (Some (Sample.junk 6)) 4 H1 H2)
    as (Hret & _ & Hcopy).
  split; [exact H1|]. split; [exact H2|]. split; [exact H3|]. split; [exact Hret|].
  exact (Hcopy (Sample.junk 6) eq_refl H3).
Defined.

Lemma to_int_small (z : Z) : INT_MIN <= z <= INT_MAX -> to_int z = z.
Proof.
  unfold to_int, INT_MIN, INT_MAX. intros H.
  rewrite Z.mod_small by lia. lia.
Qed.

(** C7, as amended: without a token both queries answer 0; with one,
    [IsTokenValid] answers 1 exactly when the clock is strictly before the
    expiry, and [GetTokenTTL] answers 0 once expired and otherwise the whole
    seconds left, rounded down, narrowed to [int]. *)
Theorem IsTokenValid_GetTokenTTL_spec (tps : positive) (w : World) (g : Globals) :
  (str_empty (g_cachedToken g) = true ->
     IsTokenValid w g = 0 /\ GetTokenTTL tps w g = 0)
  /\ (str_empty (g_cachedToken g) = false ->
        (IsTokenValid w g = 1 <-> now w < g_tokenExpiry g)
        /\ (IsTokenValid w g = 0 <-> g_tokenExpiry g <= now w)
        /\ (g_tokenExpiry g <= now w -> GetTokenTTL tps w g = 0)
        /\ (now w < g_tokenExpiry g ->
              GetTokenTTL tps w g = to_int ((g_tokenExpiry g - now w) / Z.pos tps))
        /\ (now w < g_tokenExpiry g ->
            (g_tokenExpiry g - now w) / Z.pos tps <= INT_MAX ->
              GetTokenTTL tps w g = (g_tokenExpiry g - now w) / Z.pos tps
              /\ 0 <= GetTokenTTL tps w g)).
Proof.
  unfold IsTokenValid, GetTokenTTL. split; intros Htok; rewrite Htok.
  - split; reflexivity.
  - assert (Hquot : now w < g_tokenExpiry g ->
              Z.quot (g_tokenExpiry g - now w) (Z.pos tps)
              = (g_tokenExpiry g - now w) / Z.pos tps)
      by (intros; apply Z.quot_div_nonneg; lia).
    destruct (Z.ltb_spec (now w) (g_tokenExpiry g)) as [Hlt|Hge];
      destruct (Z.leb_spec (g_tokenExpiry g) (now w)) as [Hle|Hgt]; try lia.
    rewrite Hquot by assumption.
    assert (Hpos : 0 <= (g_tokenExpiry g - now w) / Z.pos tps)
      by (apply Z.div_pos; lia).
    assert (Hfit : (g_tokenExpiry g - now w) / Z.pos tps <= INT_MAX ->
              to_int ((g_tokenExpiry g - now w) / Z.pos tps)
              = (g_tokenExpiry g - now w) / Z.pos tps)
      by (intros; apply to_int_small; unfold INT_MIN; lia).
    repeat split; intros; lia.
Qed.

Lemma IsTokenValid_GetTokenTTL_spec_witness :
  str_empty (g_cachedToken Sample.holding_token) = false
  /\ (IsTokenValid (Sample.world 5 5 Sample.unreachable_server) Sample.holding_token = 1
      <-> 5 < g_tokenExpiry Sample.holding_token)
  /\ GetTokenTTL Sample.tps (Sample.world 5 5 Sample.unreachable_server) Sample.holding_token
     = (g_tokenExpiry Sample.holding_token - 5) / Z.pos Sample.tps
  /\ str_empty (g_cachedToken Sample.ready) = true
  /\ GetTokenTTL Sample.tps (Sample.world 5 5 Sample.unreachable_server) Sample.ready = 0.
Proof.
  assert (Hno : str_empty (g_cachedToken Sample.ready) = true) by reflexivity.
  assert (Hyes : str_empty (g_cachedToken Sample.holding_token) = false) by reflexivity.
  pose proof (IsTokenValid_GetTokenTTL_spec Sample.tps
                (Sample.world 5 5 Sample.unreachable_server) Sample.holding_token) as [_ Hheld].
  pose proof (IsTokenValid_GetTokenTTL_spec Sample.tps
                (Sample.world 5 5 Sample.unreachable_server) Sample.ready) as [Hnone _].
  destruct (Hheld Hyes) as (Hvalid & _ & _ & _ & Hfloor).
  split; [exact Hyes|]. split; [exact Hvalid|].
  split; [apply Hfloor; [reflexivity | intro H; discriminate H]|].
  split; [exact Hno|]. apply (Hnone Hno).
Defined.

(** C7, as first stated, fails: 59.9999995 s before the expiry
    [GetTokenTTL] answers 59, where rounding up gives 60. *)
Lemma GetTokenTTL_is_not_a_ceiling :
  str_empty (g_cachedToken Sample.holding_token) = false
  /\ GetTokenTTL Sample.tps (Sample.world 5 5 Sample.unreachable_server) Sample.holding_token
     <> ceil_remaining_seconds Sample.tps (g_tokenExpiry Sample.holding_token)
          (now (Sample.world 5 5 Sample.unreachable_server)).
Proof. split; [reflexivity|]. vm_compute. intro H. discriminate H. Qed.

(** ** Frame of the globals *)

Lemma same_but_lastError_refl (g : Globals) : same_but_lastError g g.
Proof. destruct g; reflexivity. Qed.

Lemma same_but_lastError_set (e : string) (g : Globals) :
  same_but_lastError g (set_lastError e g).
Proof. reflexivity. Qed.

Lemma same_but_lastError_trans (g1 g2 g3 : Globals) :
  same_but_lastError g1 g2 -> same_but_lastError g2 g3 -> same_but_lastError g1 g3.
Proof.
  unfold same_but_lastError. intros H12 H23. rewrite H23 at 1. rewrite H12.
  reflexivity.
Qed.

Lemma HttpPost_frame (x : HttpExchange) (l : Locals) (g : Globals) :
  same_but_lastError g (snd (HttpPost x l g)).
Proof.
  unfold HttpPost. destruct (g_hSession g); [|reflexivity].
  destruct (written_by x l) as [status body].
  destruct (failure_text x); simpl;
    [apply same_but_lastError_set | apply same_but_lastError_refl].
Qed.

Lemma RetryLoop_frame (x : nat -> HttpExchange) (body : string) (remaining : nat) :
  forall attempt l g evs l' g' evs',
    RetryLoop x body remaining attempt l g evs = (l', g', evs') ->
    same_but_lastError g g'.
Proof.
  induction remaining as [|r IH]; simpl; intros attempt l g evs l' g' evs' H.
  - inversion H; subst. apply same_but_lastError_refl.
  - destruct (success l).
    + inversion H; subst. apply same_but_lastError_refl.
    + pose proof (HttpPost_frame (x attempt) l g) as Hpost.
      destruct (HttpPost (x attempt) l g) as [l1 g1]. simpl in Hpost.
      apply IH in H. eapply same_but_lastError_trans; eassumption.
Qed.

(** The events recorded by the loop extend those it starts from. *)
Lemma RetryLoop_done (x : nat -> HttpExchange) (body : string)
    (remaining attempt : nat) (l : Locals) (g : Globals) (evs : list Event) :
  success l = true ->
  RetryLoop x body remaining attempt l g evs = (l, g, evs).
Proof. intros H. destruct remaining; simpl; [|rewrite H]; reflexivity. Qed.

Lemma failure_text_None (x : HttpExchange) :
  failure_text x = None -> exists statusCode chunks, x = Completed statusCode chunks.
Proof.
  destruct x; simpl; try discriminate; [|eauto].
  destruct (err =? ERROR_WINHTTP_SECURE_FAILURE); discriminate.
Qed.

Lemma HttpPost_failed (x : HttpExchange) (l : Locals) (g : Globals) (h : N) (text : string) :
  g_hSession g = Some h ->
  failure_text x = Some text ->
  exists l', HttpPost x l g = (l', set_lastError text g) /\ success l' = false.
Proof.
  intros Hs Hf. unfold HttpPost. rewrite Hs, Hf.
  destruct (written_by x l). eexists. split; reflexivity.
Qed.

Lemma HttpPost_completed (statusCode : Z) (chunks : list (option string))
    (l : Locals) (g : Globals) (h : N) :
  g_hSession g = Some h ->
  HttpPost (Completed statusCode chunks) l g
  = (mkLocals true (read_chunks chunks) (to_int statusCode), g).
Proof. intros Hs. unfold HttpPost. rewrite Hs. reflexivity. Qed.

(** One turn of the loop that finds the transport failing. *)
Lemma RetryLoop_failed_turn (x : nat -> HttpExchange) (body : string)
    (remaining attempt : nat) (l : Locals) (g : Globals) (evs : list Event)
    (h : N) (text : string) :
  success l = false ->
  g_hSession g = Some h ->
  failure_text (x attempt) = Some text ->
  exists l',
    success l' = false
    /\ RetryLoop x body (S remaining) attempt l g evs
       = RetryLoop x body remaining (S attempt) l' (set_lastError text g)
           ((if (0 <? attempt)%nat
             then evs ++ [EvSleep (BASE_RETRY_DELAY_MS * Z.shiftl 1 (Z.of_nat attempt - 1))]
             else evs) ++ [EvHttpPost body]).
Proof.
  intros Hl Hs Hf.
  destruct (HttpPost_failed (x attempt) l g h text Hs Hf) as (l' & Hpost & Hl').
  exists l'. split; [assumption|].
  simpl. rewrite Hl, Hpost. reflexivity.
Qed.

(** One turn of the loop that sees the exchange complete. *)
Lemma RetryLoop_completed_turn (x : nat -> HttpExchange) (body : string)
    (remaining attempt : nat) (l : Locals) (g : Globals) (evs : list Event)
    (h : N) (statusCode : Z) (chunks : list (option string)) :
  success l = false ->
  g_hSession g = Some h ->
  x attempt = Completed statusCode chunks ->
  RetryLoop x body (S remaining) attempt l g evs
  = (mkLocals true (read_chunks chunks) (to_int statusCode), g,
     (if (0 <? attempt)%nat
      then evs ++ [EvSleep (BASE_RETRY_DELAY_MS * Z.shiftl 1 (Z.of_nat attempt - 1))]
      else evs) ++ [EvHttpPost body]).
Proof.
  intros Hl Hs Hx. simpl. rewrite Hl, Hx, (HttpPost_completed _ _ _ _ h Hs).
  apply RetryLoop_done. reflexivity.
Qed.

Lemma failure_text_Some (x : HttpExchange) :
  failure_text x <> None -> exists text, failure_text x = Some text.
Proof. destruct (failure_text x) as [t|]; [eauto | congruence]. Qed.

(** The loop when attempt [n] is the first to complete. *)
Lemma transport_completes (w : World) (n : nat) (statusCode : Z)
    (chunks : list (option string)) (body : string) (g : Globals) (h : N) :
  g_hSession g = Some h ->
  completes_at w n statusCode chunks ->
  exists g' evs,
    RetryLoop (exchange w) body MAX_RETRIES 0 (mkLocals false EmptyString 0) g []
    = (mkLocals true (read_chunks chunks) (to_int statusCode), g', evs)
    /\ same_but_lastError g g'
    /\ attempts evs = S n
    /\ delays_before_attempts evs = take (S n) [0; 1000; 2000].
Proof.
  intros Hs (Hn & Hfail & Hdone). unfold MAX_RETRIES in *.
  destruct n as [|[|[|n]]]; [| | |lia].
  - rewrite (RetryLoop_completed_turn _ _ _ _ _ _ _ h statusCode chunks) by auto.
    do 2 eexists. split; [reflexivity|].
    split; [apply same_but_lastError_refl|]. split; reflexivity.
  - destruct (failure_text_Some (exchange w 0)) as [t0 H0]; [apply Hfail; lia|].
    edestruct (RetryLoop_failed_turn (exchange w) body 2 0) as (l1 & Hl1 & Heq);
      [| exact Hs | exact H0 | rewrite Heq; clear Heq]; [reflexivity|].
    rewrite (RetryLoop_completed_turn _ _ _ _ _ _ _ h statusCode chunks) by auto.
    do 2 eexists. split; [reflexivity|].
    split; [reflexivity|]. split; reflexivity.
  - destruct (failure_text_Some (exchange w 0)) as [t0 H0]; [apply Hfail; lia|].
    destruct (failure_text_Some (exchange w 1)) as [t1 H1]; [apply Hfail; lia|].
    edestruct (RetryLoop_failed_turn (exchange w) body 2 0) as (l1 & Hl1 & Heq);
      [| exact Hs | exact H0 | rewrite Heq; clear Heq]; [reflexivity|].
    edestruct (RetryLoop_failed_turn (exchange w) body 1 1 l1 (set_lastError t0 g)) as (l2 & Hl2 & Heq);
      [exact Hl1 | exact Hs | exact H1 | rewrite Heq; clear Heq].
    rewrite (RetryLoop_completed_turn _ _ _ _ _ _ _ h statusCode chunks) by auto.
    do 2 eexists. split; [reflexivity|].
    split; [reflexivity|]. split; reflexivity.
Qed.

(** The loop when the three exchanges fail. *)
Lemma transport_fails (w : World) (body : string) (g : Globals) (h : N) :
  g_hSession g = Some h ->
  (forall j, (j < MAX_RETRIES)%nat -> failure_text (exchange w j) <> None) ->
  exists l text evs,
    RetryLoop (exchange w) body MAX_RETRIES 0 (mkLocals false EmptyString 0) g []
    = (l, set_lastError text g, evs)
    /\ success l = false
    /\ failure_text (exchange w 2) = Some text
    /\ attempts evs = 3%nat
    /\ delays_before_attempts evs = [0; 1000; 2000].
Proof.
  intros Hs Hfail. unfold MAX_RETRIES in *.
  destruct (failure_text_Some (exchange w 0)) as [t0 H0]; [apply Hfail; lia|].
  destruct (failure_text_Some (exchange w 1)) as [t1 H1]; [apply Hfail; lia|].
  destruct (failure_text_Some (exchange w 2)) as [t2 H2]; [apply Hfail; lia|].
  edestruct (RetryLoop_failed_turn (exchange w) body 2 0) as (l1 & Hl1 & Heq);
    [| exact Hs | exact H0 | rewrite Heq; clear Heq]; [reflexivity|].
  edestruct (RetryLoop_failed_turn (exchange w) body 1 1 l1 (set_lastError t0 g)) as (l2 & Hl2 & Heq);
    [exact Hl1 | exact Hs | exact H1 | rewrite Heq; clear Heq].
  edestruct (RetryLoop_failed_turn (exchange w) body 0 2 l2
               (set_lastError t1 (set_lastError t0 g))) as (l3 & Hl3 & Heq);
    [exact Hl2 | exact Hs | exact H2 | rewrite Heq; clear Heq].
  exists l3, t2. eexists. split; [reflexivity|].
  repeat split; assumption || reflexivity.
Qed.

(** Either some attempt completes or the three of them fail. *)
Lemma transport_cases (w : World) :
  (exists n statusCode chunks, completes_at w n statusCode chunks)
  \/ (forall j, (j < MAX_RETRIES)%nat -> failure_text (exchange w j) <> None).
Proof.
  unfold completes_at, MAX_RETRIES.
  destruct (failure_text (exchange w 0)) eqn:H0.
  2: { left. destruct (failure_text_None _ H0) as (sc & ch & Hx).
       exists 0%nat, sc, ch. repeat split; [lia | intros; lia | assumption]. }
  destruct (failure_text (exchange w 1)) eqn:H1.
  2: { left. destruct (failure_text_None _ H1) as (sc & ch & Hx).
       exists 1%nat, sc, ch. repeat split; [lia | | assumption].
       intros j Hj. replace j with 0%nat by lia. congruence. }
  destruct (failure_text (exchange w 2)) eqn:H2.
  2: { left. destruct (failure_text_None _ H2) as (sc & ch & Hx).
       exists 2%nat, sc, ch. repeat split; [lia | | assumption].
       intros [|[|j]] Hj; [congruence | congruence | lia]. }
  right. intros [|[|[|j]]] Hj; [congruence | congruence | congruence | lia].
Qed.

(** ** The exported functions *)

Section Properties.

Variable crack : wstring -> option UrlComponents.
Variable mb : string -> option wstring.
Variable tps : positive.

Lemma fresh_test (t : Z) (g : Globals) :
  fresh t g <-> negb (str_empty (g_cachedToken g)) && (t <? g_tokenExpiry g) = true.
Proof.
  unfold fresh. rewrite andb_true_iff, negb_true_iff, Z.ltb_lt. reflexivity.
Qed.

Lemma not_fresh_test (t : Z) (g : Globals) :
  ~ fresh t g -> negb (str_empty (g_cachedToken g)) && (t <? g_tokenExpiry g) = false.
Proof.
  intros H. apply not_true_is_false. intros E. apply H, fresh_test, E.
Qed.

(** *** URL resolver *)

Lemma ParseUrl_cases (url : wstring) (g : Globals) :
  (crack url = None
   /\ ParseUrl crack url g = (false, set_lastError "Failed to parse URL" g))
  \/ (exists urlComp,
        crack url = Some urlComp
        /\ ParseUrl crack url g
           = (true, set_endpoint (lpszHostName urlComp) (lpszUrlPath urlComp)
                      (nPort urlComp) (nScheme urlComp =? INTERNET_SCHEME_HTTPS) g)).
Proof.
  unfold ParseUrl. destruct (crack url) as [c|]; [right; eauto | left; auto].
Qed.

(** The override block leaves the globals alone, or records a failed parse,
    or installs the components of a URL that parsed. *)
Lemma apply_endpoint_override_cases (endpointUrl : option string) (g : Globals) :
  apply_endpoint_override crack mb endpointUrl g = g
  \/ apply_endpoint_override crack mb endpointUrl g
     = set_lastError "Failed to parse URL" g
  \/ (exists url urlComp,
        crack url = Some urlComp
        /\ apply_endpoint_override crack mb endpointUrl g
           = set_endpoint (lpszHostName urlComp) (lpszUrlPath urlComp)
               (nPort urlComp) (nScheme urlComp =? INTERNET_SCHEME_HTTPS) g).
Proof.
  unfold apply_endpoint_override.
  destruct endpointUrl as [s|]; [|auto].
  destruct (str_empty s); [auto|].
  destruct (Utf8ToWide mb (Some s)) as [|c wide] eqn:E; [auto|].
  destruct (ParseUrl_cases (c :: wide) g) as [[_ ->]|(urlComp & Hc & ->)]; simpl.
  - auto.
  - right. right. eauto.
Qed.

(** Fields that only the token cache and the lifecycle functions write. *)
Lemma apply_endpoint_override_keeps (endpointUrl : option string) (g : Globals) :
  let g' := apply_endpoint_override crack mb endpointUrl g in
  cache_of g' = cache_of g
  /\ g_hSession g' = g_hSession g
  /\ g_initialized g' = g_initialized g
  /\ g_endpointUrl g' = g_endpointUrl g.
Proof.
  destruct (apply_endpoint_override_cases endpointUrl g)
    as [->|[->|(url & c & _ & ->)]]; repeat split; reflexivity.
Qed.

(** *** Consistency of the reachable states *)

Lemma ValidateLicense_lifecycle (w : World)
    (key account broker deviceId endpointUrl : option string)
    (outToken outError : option buffer) (g : Globals) :
  let r := ValidateLicense crack mb tps w key account broker deviceId endpointUrl
             outToken outError g in
  g_initialized (globals r) = g_initialized g
  /\ g_hSession (globals r) = g_hSession g
  /\ g_endpointUrl (globals r) = g_endpointUrl g
  /\ endpoint_of (globals r)
     = endpoint_of (if g_initialized g && negb (negb (str_empty (g_cachedToken g))
                                                 && (now w <? g_tokenExpiry g))
                    then apply_endpoint_override crack mb endpointUrl g else g).
Proof.
  unfold ValidateLicense.
  destruct (g_initialized g) eqn:Hinit; simpl negb; cbv iota; [|repeat split; auto].
  destruct (negb (str_empty (g_cachedToken g)) && (now w <? g_tokenExpiry g)) eqn:Hhit;
    cbn -[RetryLoop]; [repeat split; auto|].
  destruct (apply_endpoint_override_keeps endpointUrl g) as (_ & Hs & Hi & Hu).
  set (g0 := apply_endpoint_override crack mb endpointUrl g) in *.
  destruct (RetryLoop _ _ _ _ _ _ _) as [[l g1] evs] eqn:Hloop.
  apply RetryLoop_frame in Hloop. unfold same_but_lastError in Hloop.
  assert (H1 : g_initialized g1 = true /\ g_hSession g1 = g_hSession g
               /\ g_endpointUrl g1 = g_endpointUrl g
               /\ endpoint_of g1 = endpoint_of g0)
    by (rewrite Hloop; simpl; rewrite Hs, Hu; repeat split; congruence).
  destruct H1 as (Ha & Hb & Hc & Hd). unfold after_transport.
  destruct (success l); simpl; [|repeat split; assumption].
  destruct (httpStatus l =? 200); simpl; [|repeat split; assumption].
  destruct (String.eqb _ "true"); simpl; [|repeat split; assumption].
  destruct (if negb (str_empty _) then _ else _); simpl; repeat split; assumption.
Qed.

Lemma exec_consistent (w : World) (c : Call) (g : Globals) :
  consistent g -> consistent (exec crack mb tps w c g).
Proof.
  intros [Hs Ht]. destruct c; simpl; try (split; assumption).
  - (* InitializeLibrary *)
    unfold InitializeLibrary.
    destruct (g_initialized g) eqn:Hinit; simpl; [split; intros; intuition congruence|].
    destruct (WinHttpOpen w) as [h|]; simpl.
    + destruct (ParseUrl_cases (g_endpointUrl g) (set_hSession (Some h) g))
        as [[_ ->]|(urlComp & _ & ->)]; simpl; split; simpl; intros;
        intuition congruence.
    + split; simpl; intros; intuition congruence.
  - (* ShutdownLibrary *)
    unfold ShutdownLibrary. destruct (g_initialized g) eqn:Hinit; simpl.
    + split; simpl; intros; congruence.
    + split; intros; intuition congruence.
  - (* SetEndpoint *)
    unfold SetEndpoint. destruct url as [s|]; [|split; assumption].
    destruct (str_empty s); [split; assumption|].
    destruct (ParseUrl_cases (Utf8ToWide mb (Some s)) g)
      as [[_ ->]|(urlComp & _ & ->)]; simpl; split; simpl; assumption.
  - (* ValidateLicense *)
    destruct (ValidateLicense_lifecycle w key account broker deviceId endpointUrl
                outToken outError g) as (Hi & Hh & _).
    split.
    + rewrite Hi, Hh. assumption.
    + rewrite Hi. intros Htok.
      destruct (g_initialized g) eqn:Hinit; [reflexivity|].
      unfold ValidateLicense in Htok. rewrite Hinit in Htok. simpl in Htok. auto.
  - (* ClearCache *)
    unfold ClearCache. split; simpl; [assumption | discriminate].
Qed.

Lemma reachable_consistent (g : Globals) :
  reachable crack mb tps g -> consistent g.
Proof.
  induction 1 as [|g w c _ IH].
  - split; simpl; discriminate.
  - apply exec_consistent, IH.
Qed.

(** A reachable, initialized module holds a session handle. *)
Lemma reachable_session (g : Globals) :
  reachable crack mb tps g -> g_initialized g = true ->
  exists h, g_hSession g = Some h.
Proof.
  intros Hr Hi. destruct (reachable_consistent g Hr) as [Hs _].
  destruct (g_hSession g) as [h|]; [eauto | exfalso; apply Hs; auto].
Qed.

(** *** Cache hit *)

(** The bytes a C function reads from a string are its bytes up to the
    first NUL: all of them when the string holds no NUL. *)
Lemma c_str_prefix (s : string) :
  exists rest,
    list_ascii_of_string s = c_str s ++ rest
    /\ (rest = [] \/ exists rest', rest = NUL :: rest').
Proof.
  induction s as [|c s (rest & Heq & Hrest)]; simpl.
  - exists []. split; [reflexivity | left; reflexivity].
  - destruct (Ascii.eqb_spec c NUL) as [->|Hne].
    + exists (NUL :: list_ascii_of_string s). split; [reflexivity | right; eauto].
    + exists rest. split; [simpl; rewrite Heq; reflexivity | assumption].
Qed.

(** The first bytes of the destination after [strncpy] are those of the
    source, as many as the source has, up to the count. *)
Lemma take_strncpy (dest : buffer) (src : list ascii) (n : nat) :
  take (Nat.min n (length src)) (strncpy dest src n) = take n src.
Proof.
  unfold strncpy. destruct (decide (length src < n)%nat) as [Hlt|Hge].
  - rewrite resize_ge by lia. rewrite Nat.min_r by lia.
    rewrite <- app_assoc, take_app_length. symmetry. apply take_ge. lia.
  - rewrite resize_le by lia. rewrite Nat.min_l by lia.
    apply take_app_length'. rewrite length_take. lia.
Qed.

(** C1, as amended: in a reachable state whose cache holds a fresh token,
    [ValidateLicense] returns 0, invokes neither [HttpPost] nor [Sleep] and
    leaves every global as it was. What is delivered is the cached token as
    a C string, that is up to its first NUL byte if it has one: into a buffer
    of the documented 512 bytes go its first 511 bytes at most, and a token
    shorter than 511 bytes is read back whole. Without a buffer nothing is
    copied. *)
Theorem ValidateLicense_cache_hit (w : World)
    (key account broker deviceId endpointUrl : option string)
    (outToken outError : option buffer) (g : Globals) :
  reachable crack mb tps g ->
  fresh (now w) g ->
  let r := ValidateLicense crack mb tps w key account broker deviceId endpointUrl
             outToken outError g in
  let token := c_str (g_cachedToken g) in
  ret r = Returns 0
  /\ events r = []
  /\ globals r = g
  /\ errorOut r = outError
  /\ (outToken = None -> tokenOut r = None)
  /\ (exists rest,
        list_ascii_of_string (g_cachedToken g) = token ++ rest
        /\ Forall (fun c => c <> NUL) token
        /\ (rest = [] \/ exists rest', rest = NUL :: rest'))
  /\ (forall b,
        outToken = Some b ->
        (512 <= length b)%nat ->
        exists b',
          tokenOut r = Some b'
          /\ length b' = length b
          /\ take (Nat.min 511 (length token)) b' = take 511 token
          /\ ((length token < 511)%nat -> read_c_string b' = token)).
Proof.
  intros Hr Hf r token. pose proof Hf as [Htok _].
  destruct (reachable_consistent g Hr) as [_ Hinit].
  apply fresh_test in Hf. subst r. unfold ValidateLicense.
  rewrite (Hinit Htok), Hf. cbn [negb ret events globals errorOut tokenOut].
  split; [reflexivity|]. split; [reflexivity|]. split; [reflexivity|].
  split; [reflexivity|]. split; [intros ->; reflexivity|].
  split.
  { destruct (c_str_prefix (g_cachedToken g)) as (rest & Heq & Hrest).
    exists rest. split; [exact Heq|]. split; [|exact Hrest].
    eapply Forall_impl; [apply c_str_NUL_free|].
    intros c Hc. apply Ascii.eqb_neq. exact Hc. }
  intros b -> Hlen. exists (strncpy b token 511).
  split; [reflexivity|].
  split; [apply strncpy_length; lia|].
  split; [apply take_strncpy|].
  intros Hshort. apply read_strncpy_short; [apply c_str_NUL_free | assumption].
Qed.

(** *** Cache miss: the transport *)

Lemma events_after_transport (w : World) (outToken outError : option buffer)
    (l : Locals) (g : Globals) (evs : list Event) :
  events (after_transport tps w outToken outError l g evs) = evs.
Proof.
  unfold after_transport.
  destruct (negb (success l)); [reflexivity|].
  destruct (negb (httpStatus l =? 200)); [reflexivity|].
  destruct (negb (String.eqb _ "true")); [reflexivity|].
  destruct (if negb (str_empty _) then _ else _); reflexivity.
Qed.

(** A cache miss whose [n]-th attempt is the first to complete. *)
Lemma ValidateLicense_completed (w : World)
    (key account broker deviceId endpointUrl : option string)
    (outToken outError : option buffer) (g : Globals)
    (n : nat) (statusCode : Z) (chunks : list (option string)) :
  reachable crack mb tps g ->
  g_initialized g = true ->
  ~ fresh (now w) g ->
  completes_at w n statusCode chunks ->
  exists g1 evs,
    ValidateLicense crack mb tps w key account broker deviceId endpointUrl
      outToken outError g
    = after_transport tps w outToken outError
        (mkLocals true (read_chunks chunks) (to_int statusCode)) g1 evs
    /\ same_but_lastError (apply_endpoint_override crack mb endpointUrl g) g1
    /\ cache_of g1 = cache_of g
    /\ attempts evs = S n
    /\ delays_before_attempts evs = take (S n) [0; 1000; 2000].
Proof.
  intros Hr Hinit Hmiss Hc.
  destruct (reachable_session g Hr Hinit) as [h Hs].
  destruct (apply_endpoint_override_keeps endpointUrl g) as (Hcache & Hs0 & _ & _).
  destruct (transport_completes w n statusCode chunks
              (request_json key account broker deviceId)
              (apply_endpoint_override crack mb endpointUrl g) h)
    as (g1 & evs & Hloop & Hframe & Hatt & Hdel); [congruence | assumption |].
  exists g1, evs. unfold ValidateLicense.
  rewrite Hinit, (not_fresh_test _ _ Hmiss). cbn -[RetryLoop]. rewrite Hloop.
  repeat split; try assumption.
  rewrite <- Hcache, Hframe. reflexivity.
Qed.

(** A cache miss whose three attempts fail. *)
Lemma ValidateLicense_all_failed (w : World)
    (key account broker deviceId endpointUrl : option string)
    (outToken outError : option buffer) (g : Globals) :
  reachable crack mb tps g ->
  g_initialized g = true ->
  ~ fresh (now w) g ->
  (forall j, (j < MAX_RETRIES)%nat -> failure_text (exchange w j) <> None) ->
  exists text evs,
    ValidateLicense crack mb tps w key account broker deviceId endpointUrl
      outToken outError g
    = mkResult (Returns (-2)) outToken (strncpy_to outError text 255)
        (set_lastError text (apply_endpoint_override crack mb endpointUrl g)) evs
    /\ failure_text (exchange w 2) = Some text
    /\ attempts evs = 3%nat
    /\ delays_before_attempts evs = [0; 1000; 2000].
Proof.
  intros Hr Hinit Hmiss Hfail.
  destruct (reachable_session g Hr Hinit) as [h Hs].
  destruct (apply_endpoint_override_keeps endpointUrl g) as (_ & Hs0 & _ & _).
  destruct (transport_fails w (request_json key account broker deviceId)
              (apply_endpoint_override crack mb endpointUrl g) h)
    as (l & text & evs & Hloop & Hl & Htext & Hatt & Hdel); [congruence | assumption |].
  exists text, evs. unfold ValidateLicense.
  rewrite Hinit, (not_fresh_test _ _ Hmiss). cbn -[RetryLoop]. rewrite Hloop.
  unfold after_transport. rewrite Hl. simpl. repeat split; assumption.
Qed.

(** C2: on a cache miss of an initialized module there are at most 3
    invocations of [HttpPost], preceded by sleeps of 0, 1000 and 2000 ms;
    the loop stops at the first exchange that completes, whatever its status
    code; and when the three exchanges fail the call returns -2 with the
    error text of the third one in [g_lastError] and in [outError]. *)
Theorem ValidateLicense_retry (w : World)
    (key account broker deviceId endpointUrl : option string)
    (outToken outError : option buffer) (g : Globals) :
  reachable crack mb tps g ->
  g_initialized g = true ->
  ~ fresh (now w) g ->
  let r := ValidateLicense crack mb tps w key account broker deviceId endpointUrl
             outToken outError g in
  (attempts (events r) <= 3)%nat
  /\ delays_before_attempts (events r) = take (attempts (events r)) [0; 1000; 2000]
  /\ (forall n statusCode chunks,
        completes_at w n statusCode chunks -> attempts (events r) = S n)
  /\ ((forall j, (j < 3)%nat -> failure_text (exchange w j) <> None) ->
        attempts (events r) = 3%nat
        /\ ret r = Returns (-2)
        /\ exists text,
             failure_text (exchange w 2) = Some text
             /\ g_lastError (globals r) = text
             /\ errorOut r = strncpy_to outError text 255).
Proof.
  intros Hr Hinit Hmiss r.
  assert (Hdone : forall n statusCode chunks,
            completes_at w n statusCode chunks ->
            attempts (events r) = S n
            /\ delays_before_attempts (events r) = take (S n) [0; 1000; 2000]).
  { intros n statusCode chunks Hc.
    destruct (ValidateLicense_completed w key account broker deviceId endpointUrl
                outToken outError g n statusCode chunks Hr Hinit Hmiss Hc)
      as (g1 & evs & Heq & _ & _ & Hatt & Hdel).
    subst r. rewrite Heq, events_after_transport. split; assumption. }
  assert (Hfailed : (forall j, (j < 3)%nat -> failure_text (exchange w j) <> None) ->
            attempts (events r) = 3%nat
            /\ delays_before_attempts (events r) = [0; 1000; 2000]
            /\ ret r = Returns (-2)
            /\ exists text,
                 failure_text (exchange w 2) = Some text
                 /\ g_lastError (globals r) = text
                 /\ errorOut r = strncpy_to outError text 255).
  { intros Hfail.
    destruct (ValidateLicense_all_failed w key account broker deviceId endpointUrl
                outToken outError g Hr Hinit Hmiss Hfail)
      as (text & evs & Heq & Htext & Hatt & Hdel).
    subst r. rewrite Heq. simpl. repeat split; try assumption.
    exists text. repeat split. assumption. }
  destruct (transport_cases w) as [(n & statusCode & chunks & Hc)|Hfail].
  - destruct (Hdone n statusCode chunks Hc) as [Hatt Hdel].
    assert (Hn : (n < 3)%nat) by apply Hc.
    split; [lia|]. split; [rewrite Hatt; assumption|].
    split; [intros; apply (Hdone _ _ _ H)|].
    intros Hall. exfalso. destruct Hc as (_ & _ & Hx).
    apply (Hall n Hn). rewrite Hx. reflexivity.
  - destruct (Hfailed Hfail) as (Hatt & Hdel & Hret & Htext).
    split; [lia|]. split; [rewrite Hatt; assumption|].
    split; [intros; apply (Hdone _ _ _ H)|].
    intros _. auto.
Qed.

(** *** Cache miss: the answer *)

Lemma ExtractJsonValue_absent (json key : string) :
  String.index 0 (search_key key) json = None ->
  ExtractJsonValue json key = EmptyString.
Proof. intros H. unfold ExtractJsonValue. rewrite H. reflexivity. Qed.

(** C4: when the first completed exchange has a status other than 200 the
    call returns -3, the error text is "HTTP ", the status, ": " and the raw
    body, and the cached token, its TTL and its expiry are as before. *)
Theorem ValidateLicense_http_status_error (w : World)
    (key account broker deviceId endpointUrl : option string)
    (outToken outError : option buffer) (g : Globals)
    (n : nat) (statusCode : Z) (chunks : list (option string)) :
  reachable crack mb tps g ->
  g_initialized g = true ->
  ~ fresh (now w) g ->
  completes_at w n statusCode chunks ->
  to_int statusCode <> 200 ->
  let r := ValidateLicense crack mb tps w key account broker deviceId endpointUrl
             outToken outError g in
  let text := "HTTP " +:+ to_string (to_int statusCode) +:+ ": " +:+ read_chunks chunks in
  ret r = Returns (-3)
  /\ g_lastError (globals r) = text
  /\ errorOut r = strncpy_to outError text 255
  /\ tokenOut r = outToken
  /\ cache_of (globals r) = cache_of g.
Proof.
  intros Hr Hinit Hmiss Hc Hstatus r text.
  destruct (ValidateLicense_completed w key account broker deviceId endpointUrl
              outToken outError g n statusCode chunks Hr Hinit Hmiss Hc)
    as (g1 & evs & Heq & _ & Hcache & _).
  subst r. rewrite Heq. unfold after_transport. simpl.
  apply Z.eqb_neq in Hstatus. rewrite Hstatus. simpl.
  repeat split. assumption.
Qed.

(** C3: when the first completed exchange has status 200 and the value
    extracted for [valid] is not "true", in particular when the key is
    absent, the call returns -4, empties the cached token, resets its TTL and
    reports the [message] of the response, or "License invalid" when that is
    empty. *)
Theorem ValidateLicense_license_invalid (w : World)
    (key account broker deviceId endpointUrl : option string)
    (outToken outError : option buffer) (g : Globals)
    (n : nat) (statusCode : Z) (chunks : list (option string)) :
  reachable crack mb tps g ->
  g_initialized g = true ->
  ~ fresh (now w) g ->
  completes_at w n statusCode chunks ->
  to_int statusCode = 200 ->
  (String.index 0 (search_key "valid") (read_chunks chunks) = None
   \/ ExtractJsonValue (read_chunks chunks) "valid" <> "true") ->
  let r := ValidateLicense crack mb tps w key account broker deviceId endpointUrl
             outToken outError g in
  let message := ExtractJsonValue (read_chunks chunks) "message" in
  let text := if str_empty message then "License invalid" else message in
  ret r = Returns (-4)
  /\ g_cachedToken (globals r) = EmptyString
  /\ g_tokenTTL (globals r) = 0
  /\ g_lastError (globals r) = text
  /\ errorOut r = strncpy_to outError text 255
  /\ tokenOut r = outToken.
Proof.
  intros Hr Hinit Hmiss Hc Hstatus Hvalid r message text.
  assert (Hne : String.eqb (ExtractJsonValue (read_chunks chunks) "valid") "true" = false).
  { apply String.eqb_neq. destruct Hvalid as [Habsent|Hne]; [|assumption].
    rewrite (ExtractJsonValue_absent _ _ Habsent). discriminate. }
  destruct (ValidateLicense_completed w key account broker deviceId endpointUrl
              outToken outError g n statusCode chunks Hr Hinit Hmiss Hc)
    as (g1 & evs & Heq & _ & _ & _).
  subst r. rewrite Heq. unfold after_transport. simpl.
  rewrite Hstatus, Hne. simpl. repeat split.
Qed.


(** Whenever a 200 answer marked valid carries a [ttlSeconds] that
    [std::stoi] rejects, the exception leaves [ValidateLicense]; the token
    cache is as it was before the call. *)
Lemma ValidateLicense_throws (w : World)
    (key account broker deviceId endpointUrl : option string)
    (outToken outError : option buffer) (g : Globals)
    (n : nat) (statusCode : Z) (chunks : list (option string)) :
  reachable crack mb tps g ->
  g_initialized g = true ->
  ~ fresh (now w) g ->
  completes_at w n statusCode chunks ->
  to_int statusCode = 200 ->
  ExtractJsonValue (read_chunks chunks) "valid" = "true" ->
  str_empty (ExtractJsonValue (read_chunks chunks) "ttlSeconds") = false ->
  let r := ValidateLicense crack mb tps w key account broker deviceId endpointUrl
             outToken outError g in
  match stoi (ExtractJsonValue (read_chunks chunks) "ttlSeconds") with
  | StoiValue _ => ret r = Returns 0
  | StoiInvalidArgument => ret r = Throws invalid_argument /\ cache_of (globals r) = cache_of g
  | StoiOutOfRange => ret r = Throws out_of_range /\ cache_of (globals r) = cache_of g
  end.
Proof.
  intros Hr Hinit Hmiss Hc Hstatus Hvalid Httl r.
  destruct (ValidateLicense_completed w key account broker deviceId endpointUrl
              outToken outError g n statusCode chunks Hr Hinit Hmiss Hc)
    as (g1 & evs & Heq & _ & Hcache & _).
  subst r. rewrite Heq. unfold after_transport. simpl.
  rewrite Hstatus, Hvalid, Httl. simpl.
  destruct (stoi _); simpl; auto.
Qed.

(** *** Endpoint configuration *)

(** An exported call leaves the active endpoint as it was, or sets it to the
    components of a URL that parsed. *)
Lemma exec_endpoint (w : World) (c : Call) (g : Globals) :
  endpoint_of (exec crack mb tps w c g) = endpoint_of g
  \/ (exists url urlComp,
        crack url = Some urlComp
        /\ endpoint_of (exec crack mb tps w c g)
           = mkEndpoint (lpszHostName urlComp) (lpszUrlPath urlComp) (nPort urlComp)
               (nScheme urlComp =? INTERNET_SCHEME_HTTPS)).
Proof.
  destruct c; simpl; auto.
  - unfold InitializeLibrary. destruct (g_initialized g); [auto|]. simpl.
    destruct (WinHttpOpen w) as [h|]; simpl; [|auto].
    destruct (ParseUrl_cases (g_endpointUrl g) (set_hSession (Some h) g))
      as [[_ ->]|(urlComp & Hc & ->)]; simpl; [auto|].
    right. eauto.
  - unfold ShutdownLibrary. destruct (g_initialized g); simpl; auto.
  - unfold SetEndpoint. destruct url as [s|]; [|auto].
    destruct (str_empty s); [auto|].
    destruct (ParseUrl_cases (Utf8ToWide mb (Some s)) g)
      as [[_ ->]|(urlComp & Hc & ->)]; simpl; [auto|].
    right. eauto.
  - destruct (ValidateLicense_lifecycle w key account broker deviceId endpointUrl
                outToken outError g) as (_ & _ & _ & ->).
    destruct (g_initialized g && _); [|auto].
    destruct (apply_endpoint_override_cases endpointUrl g)
      as [->|[->|(url & urlComp & Hc & ->)]]; simpl; [auto | auto |].
    right. eauto.
Qed.

(** C9: when the URL handed to [SetEndpoint], or to [ValidateLicense] as the
    override, does not parse, [ParseUrl] stores "Failed to parse URL" in
    [g_lastError] and host, path, port and scheme are as before, at the end
    of [SetEndpoint] and at the end of [ValidateLicense]; and an exported
    call that changes the active endpoint sets it to the components of a URL
    that parsed. *)
Theorem failed_parse_keeps_endpoint (url : string) (g : Globals) :
  str_empty url = false ->
  crack (Utf8ToWide mb (Some url)) = None ->
  ParseUrl crack (Utf8ToWide mb (Some url)) g
  = (false, set_lastError "Failed to parse URL" g)
  /\ SetEndpoint crack mb (Some url) g = set_lastError "Failed to parse URL" g
  /\ endpoint_of (SetEndpoint crack mb (Some url) g) = endpoint_of g
  /\ g_lastError (SetEndpoint crack mb (Some url) g) = "Failed to parse URL"
  /\ endpoint_of (apply_endpoint_override crack mb (Some url) g) = endpoint_of g
  /\ (Utf8ToWide mb (Some url) <> [] ->
        apply_endpoint_override crack mb (Some url) g
        = set_lastError "Failed to parse URL" g)
  /\ (forall w key account broker deviceId outToken outError,
        endpoint_of
          (globals (ValidateLicense crack mb tps w key account broker deviceId
                      (Some url) outToken outError g))
        = endpoint_of g)
  /\ (forall w c g0,
        endpoint_of (exec crack mb tps w c g0) <> endpoint_of g0 ->
        exists url' urlComp,
          crack url' = Some urlComp
          /\ endpoint_of (exec crack mb tps w c g0)
             = mkEndpoint (lpszHostName urlComp) (lpszUrlPath urlComp) (nPort urlComp)
                 (nScheme urlComp =? INTERNET_SCHEME_HTTPS)).
Proof.
  intros Hurl Hcrack.
  assert (Hparse : ParseUrl crack (Utf8ToWide mb (Some url)) g
                   = (false, set_lastError "Failed to parse URL" g))
    by (unfold ParseUrl; rewrite Hcrack; reflexivity).
  assert (Hset : SetEndpoint crack mb (Some url) g
                 = set_lastError "Failed to parse URL" g)
    by (unfold SetEndpoint; rewrite Hurl, Hparse; reflexivity).
  assert (Hover : apply_endpoint_override crack mb (Some url) g = g
                  \/ (Utf8ToWide mb (Some url) <> []
                      /\ apply_endpoint_override crack mb (Some url) g
                         = set_lastError "Failed to parse URL" g)).
  { unfold apply_endpoint_override. rewrite Hurl.
    destruct (Utf8ToWide mb (Some url)) as [|c wide] eqn:E; [auto|].
    right. rewrite Hparse. split; [discriminate | reflexivity]. }
  assert (Hsame : endpoint_of (apply_endpoint_override crack mb (Some url) g)
                  = endpoint_of g)
    by (destruct Hover as [->|[_ ->]]; reflexivity).
  split; [assumption|]. split; [assumption|].
  split; [rewrite Hset; reflexivity|]. split; [rewrite Hset; reflexivity|].
  split; [assumption|].
  split; [intros Hne; destruct Hover as [Heq|[_ Heq]]; [|assumption];
          unfold apply_endpoint_override in Heq |- *; rewrite Hurl in Heq |- *;
          destruct (Utf8ToWide mb (Some url)); [congruence|];
          rewrite Hparse; reflexivity|].
  split.
  - intros w key account broker deviceId outToken outError.
    destruct (ValidateLicense_lifecycle w key account broker deviceId (Some url)
                outToken outError g) as (_ & _ & _ & ->).
    destruct (g_initialized g && _); [assumption | reflexivity].
  - intros w c g0 Hchanged.
    destruct (exec_endpoint w c g0) as [Heq|Hnew]; [congruence | assumption].
Qed.

End Properties.

(** ** The properties in the concrete setting *)

Lemma reachable_ready : reachable Sample.crack Sample.mb Sample.tps Sample.ready.
Proof. apply reachable_step, reachable_initial. Qed.

Lemma reachable_holding_token :
  reachable Sample.crack Sample.mb Sample.tps Sample.holding_token.
Proof. apply reachable_step, reachable_ready. Qed.

Lemma ready_not_fresh (t : Z) : ~ fresh t Sample.ready.
Proof. intros [H _]. discriminate H. Qed.

Lemma unreachable_server_fails (j : nat) :
  (j < 3)%nat -> failure_text (exchange (Sample.world 5 5 Sample.unreachable_server) j) <> None.
Proof. intros _. discriminate. Qed.

Lemma answers_completes (t t' statusCode : Z) (body : string) :
  completes_at (Sample.world t t' (Sample.answers statusCode body)) 0 statusCode [Some body].
Proof. repeat split; [unfold MAX_RETRIES; lia | intros j Hj; lia]. Qed.

Lemma answers_third_completes (t t' statusCode : Z) (body : string) :
  completes_at (Sample.world t t' (Sample.answers_third statusCode body)) 2 statusCode
    [Some body].
Proof.
  repeat split; [unfold MAX_RETRIES; lia|].
  intros [|[|j]] Hj; [discriminate | discriminate | lia].
Qed.

Lemma ValidateLicense_cache_hit_witness :
  reachable Sample.crack Sample.mb Sample.tps Sample.holding_token
  /\ fresh (now (Sample.world 5 5 Sample.unreachable_server)) Sample.holding_token
  /\ (512 <= length (Sample.junk 512))%nat
  /\ let r := ValidateLicense Sample.crack Sample.mb Sample.tps
                (Sample.world 5 5 Sample.unreachable_server)
                (Some "KEY1") (Some "ACC1") (Some "BROKERX") (Some "DEV1") None
                (Some (Sample.junk 512)) (Some (Sample.junk 256)) Sample.holding_token in
     ret r = Returns 0 /\ events r = [] /\ globals r = Sample.holding_token
     /\ exists b', tokenOut r = Some b'
                   /\ read_c_string b' = list_ascii_of_string "tok-abc".
Proof.
  assert (Hf : fresh (now (Sample.world 5 5 Sample.unreachable_server)) Sample.holding_token)
    by (split; reflexivity).
  assert (Hbuf : (512 <= length (Sample.junk 512))%nat) by (vm_compute; lia).
  split; [exact reachable_holding_token|]. split; [exact Hf|]. split; [exact Hbuf|].
  destruct (ValidateLicense_cache_hit Sample.crack Sample.mb Sample.tps
              (Sample.world 5 5 Sample.unreachable_server)
              (Some "KEY1") (Some "ACC1") (Some "BROKERX") (Some "DEV1") None
              (Some (Sample.junk 512)) (Some (Sample.junk 256)) Sample.holding_token
              reachable_holding_token Hf) as (Hret & Hev & Hg & _ & _ & _ & Hcopy).
  destruct (Hcopy (Sample.junk 512) eq_refl Hbuf) as (b' & Hout & _ & _ & Hread).
  split; [exact Hret|]. split; [exact Hev|]. split; [exact Hg|].
  exists b'. split; [exact Hout|].
  rewrite Hread; [reflexivity | vm_compute; lia].
Defined.

(** C1, as first stated, fails: with a fresh cached token of 600 bytes the
    call returns 0 without any network access, yet even a zeroed buffer of
    512 bytes reads back 511 bytes, which is not the cached token. *)
Lemma ValidateLicense_cache_hit_cuts_long_token :
  reachable Sample.crack Sample.mb Sample.tps Scenario.holding_long_token
  /\ fresh (now (Sample.world 5 5 Sample.unreachable_server)) Scenario.holding_long_token
  /\ let r := ValidateLicense Sample.crack Sample.mb Sample.tps
                (Sample.world 5 5 Sample.unreachable_server)
                (Some "KEY1") (Some "ACC1") (Some "BROKERX") (Some "DEV1") None
                (Some (replicate 512 NUL)) None Scenario.holding_long_token in
     ret r = Returns 0
     /\ events r = []
     /\ exists b',
          tokenOut r = Some b'
          /\ length (list_ascii_of_string (g_cachedToken Scenario.holding_long_token))
             = 600%nat
          /\ length (read_c_string b') = 511%nat
          /\ read_c_string b'
             <> list_ascii_of_string (g_cachedToken Scenario.holding_long_token).
Proof.
  split; [apply reachable_step, reachable_ready|].
  split; [split; reflexivity|].
  split; [reflexivity|]. split; [reflexivity|].
  eexists. split; [reflexivity|].
  split; [vm_compute; reflexivity|]. split; [vm_compute; reflexivity|].
  intros H. apply (f_equal length) in H. vm_compute in H. discriminate H.
Qed.

Lemma ValidateLicense_retry_witness :
  reachable Sample.crack Sample.mb Sample.tps Sample.ready
  /\ g_initialized Sample.ready = true
  /\ ~ fresh (now (Sample.world 5 5 Sample.unreachable_server)) Sample.ready
  /\ let r := ValidateLicense Sample.crack Sample.mb Sample.tps
                (Sample.world 5 5 Sample.unreachable_server)
                (Some "KEY1") (Some "ACC1") (Some "BROKERX") (Some "DEV1") None
                None (Some (Sample.junk 256)) Sample.ready in
     attempts (events r) = 3%nat
     /\ delays_before_attempts (events r) = [0; 1000; 2000]
     /\ ret r = Returns (-2)
     /\ g_lastError (globals r) = "Failed to connect to server: 12029".
Proof.
  split; [exact reachable_ready|]. split; [reflexivity|].
  split; [apply ready_not_fresh|].
  destruct (ValidateLicense_retry Sample.crack Sample.mb Sample.tps
              (Sample.world 5 5 Sample.unreachable_server)
              (Some "KEY1") (Some "ACC1") (Some "BROKERX") (Some "DEV1") None
              None (Some (Sample.junk 256)) Sample.ready
              reachable_ready eq_refl (ready_not_fresh _))
    as (_ & Hdel & _ & Hfail).
  destruct (Hfail unreachable_server_fails) as (Hatt & Hret & text & Htext & Herr & _).
  rewrite Hatt in Hdel. inversion Htext as [Ht]. rewrite <- Ht in Herr.
  split; [exact Hatt|]. split; [exact Hdel|]. split; [exact Hret | exact Herr].
Defined.

Lemma ValidateLicense_http_status_error_witness :
  reachable Sample.crack Sample.mb Sample.tps Sample.ready
  /\ g_initialized Sample.ready = true
  /\ ~ fresh 5 Sample.ready
  /\ completes_at (Sample.world 5 5 (Sample.answers_third 503 "busy")) 2 503 [Some "busy"]
  /\ to_int 503 <> 200
  /\ let r := ValidateLicense Sample.crack Sample.mb Sample.tps
                (Sample.world 5 5 (Sample.answers_third 503 "busy"))
                (Some "KEY1") (Some "ACC1") (Some "BROKERX") (Some "DEV1") None
                None None Sample.ready in
     ret r = Returns (-3)
     /\ g_lastError (globals r) = "HTTP 503: busy"
     /\ cache_of (globals r) = cache_of Sample.ready.
Proof.
  assert (Hstatus : to_int 503 <> 200) by (intro H; discriminate H).
  split; [exact reachable_ready|]. split; [reflexivity|].
  split; [apply ready_not_fresh|]. split; [apply answers_third_completes|].
  split; [exact Hstatus|].
  destruct (ValidateLicense_http_status_error Sample.crack Sample.mb Sample.tps
              (Sample.world 5 5 (Sample.answers_third 503 "busy"))
              (Some "KEY1") (Some "ACC1") (Some "BROKERX") (Some "DEV1") None
              None None Sample.ready 2 503 [Some "busy"]
              reachable_ready eq_refl (ready_not_fresh _)
              (answers_third_completes 5 5 503 "busy") Hstatus)
    as (Hret & Herr & _ & _ & Hcache).
  repeat split; assumption.
Defined.

Lemma ValidateLicense_license_invalid_witness :
  reachable Sample.crack Sample.mb Sample.tps Sample.ready
  /\ g_initialized Sample.ready = true
  /\ ~ fresh 5 Sample.ready
  /\ completes_at (Sample.world 5 5 (Sample.answers 200 Sample.body_invalid)) 0 200
       [Some Sample.body_invalid]
  /\ to_int 200 = 200
  /\ ExtractJsonValue (read_chunks [Some Sample.body_invalid]) "valid" <> "true"
  /\ let r := ValidateLicense Sample.crack Sample.mb Sample.tps
                (Sample.world 5 5 (Sample.answers 200 Sample.body_invalid))
                (Some "KEY1") (Some "ACC1") (Some "BROKERX") (Some "DEV1") None
                None None Sample.ready in
     ret r = Returns (-4)
     /\ g_cachedToken (globals r) = EmptyString
     /\ g_lastError (globals r) = "License expired".
Proof.
  assert (Hvalid : ExtractJsonValue (read_chunks [Some Sample.body_invalid]) "valid" <> "true")
    by (vm_compute; intro H; discriminate H).
  split; [exact reachable_ready|]. split; [reflexivity|].
  split; [apply ready_not_fresh|]. split; [apply answers_completes|].
  split; [reflexivity|]. split; [exact Hvalid|].
  destruct (ValidateLicense_license_invalid Sample.crack Sample.mb Sample.tps
              (Sample.world 5 5 (Sample.answers 200 Sample.body_invalid))
              (Some "KEY1") (Some "ACC1") (Some "BROKERX") (Some "DEV1") None
              None None Sample.ready 0 200 [Some Sample.body_invalid]
              reachable_ready eq_refl (ready_not_fresh _)
              (answers_completes 5 5 200 Sample.body_invalid) eq_refl (or_intror Hvalid))
    as (Hret & Htok & _ & Herr & _).
  repeat split; assumption.
Defined.


Lemma failed_parse_keeps_endpoint_witness :
  str_empty "not a url" = false
  /\ Sample.crack (Utf8ToWide Sample.mb (Some "not a url")) = None
  /\ endpoint_of (SetEndpoint Sample.crack Sample.mb (Some "not a url") Sample.ready)
     = endpoint_of Sample.ready
  /\ g_lastError (SetEndpoint Sample.crack Sample.mb (Some "not a url") Sample.ready)
     = "Failed to parse URL"
  /\ endpoint_of
       (globals (ValidateLicense Sample.crack Sample.mb Sample.tps
                   (Sample.world 5 5 Sample.unreachable_server)
                   (Some "KEY1") (Some "ACC1") (Some "BROKERX") (Some "DEV1")
                   (Some "not a url") None None Sample.ready))
     = endpoint_of Sample.ready.
Proof.
  destruct (failed_parse_keeps_endpoint Sample.crack Sample.mb Sample.tps
              "not a url" Sample.ready eq_refl eq_refl)
    as (_ & _ & Hend & Herr & _ & _ & Hval & _).
  split; [reflexivity|]. split; [reflexivity|].
  split; [exact Hend|]. split; [exact Herr|]. apply Hval.
Defined.

(** C5: a 200 answer whose [ttlSeconds] is the string "soon" makes
    [std::stoi] raise [std::invalid_argument]; nothing in [ValidateLicense]
    catches it, so the call neither succeeds nor returns an error code, and
    no token is cached. *)
Theorem ValidateLicense_throws_on_non_numeric_ttl :
  let r := ValidateLicense Sample.crack Sample.mb Sample.tps
             (Sample.world 5 5 (Sample.answers 200 Sample.body_bad_ttl))
             (Some "KEY1") (Some "ACC1") (Some "BROKERX") (Some "DEV1") None
             (Some (Sample.junk 512)) (Some (Sample.junk 256)) Sample.ready in
  ExtractJsonValue Sample.body_bad_ttl "valid" = "true"
  /\ ExtractJsonValue Sample.body_bad_ttl "ttlSeconds" = "soon"
  /\ stoi "soon" = StoiInvalidArgument
  /\ ret r = Throws invalid_argument
  /\ g_cachedToken (globals r) = EmptyString.
Proof. repeat split; reflexivity. Qed.

(** * Further properties of the code *)

(** ** JSON codec *)

Lemma append_cons (c : ascii) (s t : string) : String c s +:+ t = String c (s +:+ t).
Proof. reflexivity. Qed.

Lemma append_assoc (s t u : string) : (s +:+ t) +:+ u = s +:+ (t +:+ u).
Proof.
  induction s as [|c s IH]; [reflexivity|].
  rewrite !append_cons, IH. reflexivity.
Qed.

Lemma length_append (s t : string) :
  String.length (s +:+ t) = (String.length s + String.length t)%nat.
Proof.
  induction s as [|c s IH]; [reflexivity|].
  rewrite append_cons. simpl. rewrite IH. reflexivity.
Qed.

Lemma json_string_chars_escape_char (c : ascii) (t : string) :
  json_string_chars 0 (escape_char c +:+ t) = json_string_chars 0 t.
Proof. destruct c as [[] [] [] [] [] [] [] []]; reflexivity. Qed.

Lemma forallb_Forall (p : ascii -> bool) (l : list ascii) :
  forallb p l = true -> Forall (fun c => p c = true) l.
Proof.
  induction l as [|c l IH]; simpl; [constructor|].
  intros H. apply andb_true_iff in H as [Hc Hl]. constructor; auto.
Qed.

Lemma escape_char_printable (c : ascii) :
  Forall (fun x => 32 <= unsigned_char x < 128) (list_ascii_of_string (escape_char c)).
Proof.
  assert (H : forallb (fun x => (32 <=? unsigned_char x) && (unsigned_char x <? 128))
                (list_ascii_of_string (escape_char c)) = true)
    by (destruct c as [[] [] [] [] [] [] [] []]; vm_compute; reflexivity).
  apply forallb_Forall in H. eapply Forall_impl; [exact H|].
  intros x Hx. apply andb_true_iff in Hx as [H1 H2].
  apply Z.leb_le in H1. apply Z.ltb_lt in H2. lia.
Qed.

Lemma list_ascii_of_string_append (s t : string) :
  list_ascii_of_string (s +:+ t) = list_ascii_of_string s ++ list_ascii_of_string t.
Proof.
  induction s as [|c s IH]; [reflexivity|].
  rewrite append_cons. simpl. rewrite IH. reflexivity.
Qed.

(** X1: whatever the input bytes, the escaped text is the inside of a JSON
    string: it has no bare quote, no byte below 0x20 and only complete escape
    sequences; and it is made of the bytes 0x20 to 0x7F only. *)
Theorem EscapeJson_is_json_string (str : string) :
  json_string_chars 0 (EscapeJson str) = true
  /\ Forall (fun c => 32 <= unsigned_char c < 128) (list_ascii_of_string (EscapeJson str)).
Proof.
  induction str as [|c r [IH1 IH2]]; simpl.
  - split; [reflexivity | constructor].
  - split.
    + rewrite json_string_chars_escape_char. assumption.
    + rewrite list_ascii_of_string_append. apply Forall_app. split; [|assumption].
      apply escape_char_printable.
Qed.

Lemma escape_char_length (c : ascii) :
  (1 <= String.length (escape_char c))%nat
  /\ (String.length (escape_char c) = 1%nat -> plain c = true)
  /\ (plain c = true -> escape_char c = String c EmptyString).
Proof.
  destruct c as [[] [] [] [] [] [] [] []]; vm_compute;
    repeat split; try lia; try discriminate; reflexivity.
Qed.

Lemma EscapeJson_length (str : string) :
  (String.length str <= String.length (EscapeJson str))%nat.
Proof.
  induction str as [|c r IH]; simpl; [lia|].
  rewrite length_append. pose proof (escape_char_length c) as [H _]. lia.
Qed.

(** X2: the escaper returns its input unchanged exactly when every byte of it
    is a printable 7-bit character other than the quote and the backslash. *)
Theorem EscapeJson_fixes_plain_text (str : string) :
  EscapeJson str = str <-> Forall (fun c => plain c = true) (list_ascii_of_string str).
Proof.
  induction str as [|c r IH]; simpl.
  - split; [constructor | reflexivity].
  - destruct (escape_char_length c) as (Hge & Hone & Hplain).
    pose proof (EscapeJson_length r) as Hlen. split.
    + intros Heq.
      assert (Hl : String.length (escape_char c +:+ EscapeJson r)
                   = S (String.length r)) by (rewrite Heq; reflexivity).
      rewrite length_append in Hl.
      assert (H1 : String.length (escape_char c) = 1%nat) by lia.
      specialize (Hone H1). rewrite (Hplain Hone) in Heq.
      change (String c (EscapeJson r) = String c r) in Heq.
      injection Heq as Hr. constructor; [assumption|].
      apply IH. assumption.
    + intros H. inversion H as [|? ? Hc Hr]; subst.
      rewrite (Hplain Hc), append_cons. f_equal. apply IH. assumption.
Qed.

Lemma get_append_r (a b : string) (i : nat) :
  String.get (String.length a + i) (a +:+ b) = String.get i b.
Proof.
  induction a as [|c a IH]; [reflexivity|].
  rewrite append_cons. simpl. apply IH.
Qed.

Lemma index_append_r (a b s : string) (n : nat) :
  String.index (String.length a + n) s (a +:+ b)
  = (fun m => (String.length a + m)%nat) <$> String.index n s b.
Proof.
  induction a as [|c a IH].
  - change (EmptyString +:+ b) with b. simpl.
    destruct (String.index n s b); reflexivity.
  - rewrite append_cons. simpl. rewrite IH.
    destruct (String.index n s b); reflexivity.
Qed.

Lemma substring_append_r (a b : string) (n m : nat) :
  substring (String.length a + n) m (a +:+ b) = substring n m b.
Proof.
  induction a as [|c a IH]; [reflexivity|].
  rewrite append_cons. simpl. apply IH.
Qed.

Lemma prefix_quote (c : ascii) (t : string) :
  String.prefix (String DQUOTE EmptyString) (String c t) = Ascii.eqb c DQUOTE.
Proof.
  change (String.prefix (String DQUOTE EmptyString) (String c t))
    with (if ascii_dec DQUOTE c then String.prefix EmptyString t else false).
  destruct (ascii_dec DQUOTE c) as [<-|Hne].
  - destruct t; reflexivity.
  - symmetry. apply Ascii.eqb_neq. congruence.
Qed.

(** Where the scanner finds the closing quote of a string value. *)
Lemma index_quote_until (e rest : string) :
  String.index 0 (String DQUOTE EmptyString) (e +:+ String DQUOTE rest)
  = Some (String.length (until_quote e)).
Proof.
  induction e as [|c e IH].
  - change (EmptyString +:+ String DQUOTE rest) with (String DQUOTE rest).
    unfold String.index. rewrite prefix_quote. reflexivity.
  - rewrite append_cons.
    change (String.index 0 (String DQUOTE EmptyString) (String c (e +:+ String DQUOTE rest)))
      with (if String.prefix (String DQUOTE EmptyString) (String c (e +:+ String DQUOTE rest))
            then Some 0%nat
            else match String.index 0 (String DQUOTE EmptyString) (e +:+ String DQUOTE rest) with
                 | Some n => Some (S n)
                 | None => None
                 end).
    rewrite prefix_quote, IH. simpl. destruct (Ascii.eqb c DQUOTE); reflexivity.
Qed.

Lemma substring_until_quote (e rest : string) :
  substring 0 (String.length (until_quote e)) (e +:+ String DQUOTE rest) = until_quote e.
Proof.
  induction e as [|c e IH]; [reflexivity|].
  rewrite append_cons. simpl. destruct (Ascii.eqb c DQUOTE); simpl; [reflexivity|].
  rewrite IH. reflexivity.
Qed.

Lemma advance_while_stay (p : ascii -> bool) (json : string) (turns i : nat) (c : ascii) :
  String.get i json = Some c -> p c = false -> advance_while p json turns i = i.
Proof. intros Hget Hp. destruct turns; simpl; [|rewrite Hget, Hp]; reflexivity. Qed.

(** The scanner on a text whose first marker for [key] stands after [pre]
    and is followed at once by a quoted value: the value is returned up to
    its first double quote. *)
Lemma ExtractJsonValue_quoted_value (pre key e rest : string) :
  let json := pre +:+ (search_key key +:+ String DQUOTE (e +:+ String DQUOTE rest)) in
  String.index 0 (search_key key) json = Some (String.length pre) ->
  ExtractJsonValue json key = until_quote e.
Proof.
  intros json Hindex.
  assert (Hjson : json = (pre +:+ search_key key) +:+ String DQUOTE (e +:+ String DQUOTE rest))
    by (subst json; rewrite append_assoc; reflexivity).
  assert (Hjson' : json = ((pre +:+ search_key key) +:+ String DQUOTE EmptyString)
                          +:+ (e +:+ String DQUOTE rest))
    by (subst json; rewrite !append_assoc; reflexivity).
  clearbody json.
  unfold ExtractJsonValue. rewrite Hindex.
  set (start := (String.length pre + String.length (search_key key))%nat).
  assert (Hstart : start = (String.length (pre +:+ search_key key) + 0)%nat)
    by (subst start; rewrite length_append; lia).
  assert (Hstart' : S start
                    = (String.length ((pre +:+ search_key key) +:+ String DQUOTE EmptyString) + 0)%nat)
    by (rewrite Hstart, (length_append (pre +:+ search_key key)); simpl; lia).
  assert (Hget : String.get start json = Some DQUOTE)
    by (rewrite Hjson, Hstart, get_append_r; reflexivity).
  rewrite (advance_while_stay _ _ _ _ DQUOTE Hget eq_refl).
  pose proof (get_Some_lt _ _ _ Hget) as Hlt.
  destruct (Nat.leb_spec (String.length json) start) as [Hle|_]; [lia|].
  rewrite Hget. change (Ascii.eqb DQUOTE DQUOTE) with true. cbv iota.
  assert (Hfound : String.index (S start) (String DQUOTE EmptyString) json
                   = Some (S start + String.length (until_quote e))%nat).
  { rewrite Hjson', Hstart', index_append_r, index_quote_until. simpl.
    f_equal. lia. }
  rewrite Hfound.
  replace (S start + String.length (until_quote e) - S start)%nat
    with (String.length (until_quote e)) by lia.
  rewrite Hjson', Hstart', substring_append_r.
  apply substring_until_quote.
Qed.

Lemma until_quote_no_quote (s : string) :
  Forall (fun c => c <> DQUOTE) (list_ascii_of_string s) -> until_quote s = s.
Proof.
  induction s as [|c s IH]; simpl; intros H; [reflexivity|].
  inversion H as [|? ? Hc Hs]; subst.
  apply Ascii.eqb_neq in Hc. rewrite Hc, IH by assumption. reflexivity.
Qed.

Lemma escape_char_quote (c : ascii) :
  (c <> DQUOTE -> until_quote (escape_char c) = escape_char c)
  /\ (c = DQUOTE -> escape_char c = backslash_then DQUOTE).
Proof.
  destruct c as [[] [] [] [] [] [] [] []];
    (split; [intros H; first [reflexivity | exfalso; apply H; reflexivity]
            | intros H; first [reflexivity | discriminate H]]).
Qed.

Lemma until_quote_append (s t : string) :
  until_quote s = s -> until_quote (s +:+ t) = s +:+ until_quote t.
Proof.
  induction s as [|c s IH]; [reflexivity|].
  rewrite append_cons. simpl. destruct (Ascii.eqb c DQUOTE); [discriminate|].
  intros H. injection H as H. rewrite IH by assumption. reflexivity.
Qed.

Lemma EscapeJson_no_quote (s : string) :
  Forall (fun c => c <> DQUOTE) (list_ascii_of_string s) ->
  until_quote (EscapeJson s) = EscapeJson s.
Proof.
  induction s as [|c s IH]; simpl; intros H; [reflexivity|].
  inversion H as [|? ? Hc Hs]; subst.
  destruct (escape_char_quote c) as [Hesc _].
  rewrite until_quote_append by auto. rewrite IH by assumption. reflexivity.
Qed.

(** X3: scanning the request payload for [licenseKey] returns the escaped key
    up to its first double quote: the whole escaped key when the key holds
    no quote, and otherwise the part that ends with the backslash put before
    the first quote of the key. *)
Theorem request_json_licenseKey (key account broker deviceId : option string) :
  let escaped := EscapeJson (default EmptyString key) in
  ExtractJsonValue (request_json key account broker deviceId) "licenseKey"
  = until_quote escaped
  /\ (Forall (fun c => c <> DQUOTE) (list_ascii_of_string (default EmptyString key)) ->
      ExtractJsonValue (request_json key account broker deviceId) "licenseKey" = escaped)
  /\ (forall s t,
        default EmptyString key = s +:+ String DQUOTE t ->
        Forall (fun c => c <> DQUOTE) (list_ascii_of_string s) ->
        ExtractJsonValue (request_json key account broker deviceId) "licenseKey"
        = EscapeJson s +:+ String BACKSLASH EmptyString).
Proof.
  intros escaped.
  assert (Hscan : ExtractJsonValue (request_json key account broker deviceId) "licenseKey"
                  = until_quote escaped).
  { unfold request_json, quoted. fold escaped.
    rewrite (append_assoc (String DQUOTE escaped)).
    apply (ExtractJsonValue_quoted_value "{" "licenseKey" escaped). reflexivity. }
  split; [exact Hscan|]. split.
  - intros Hfree. rewrite Hscan. apply EscapeJson_no_quote. assumption.
  - intros s t Hkey Hfree. rewrite Hscan. subst escaped. rewrite Hkey.
    clear Hkey Hscan. induction s as [|c s IH].
    + reflexivity.
    + inversion Hfree as [|? ? Hc Hs]; subst.
      rewrite append_cons. simpl. destruct (escape_char_quote c) as [Hesc _].
      rewrite append_assoc, until_quote_append by auto.
      rewrite IH by assumption. reflexivity.
Qed.

(** ** Invariants of the module *)

Lemma stoi_range (s : string) (v : Z) :
  stoi s = StoiValue v -> INT_MIN <= v <= INT_MAX.
Proof.
  unfold stoi.
  destruct (match skip_spaces s with
            | EmptyString => _
            | String c r => _
            end) as [negative s'].
  destruct (read_digits s' 0 0) as [v0 count].
  destruct count as [|count]; [discriminate|].
  destruct ((_ <? INT_MIN) || (INT_MAX <? _)) eqn:E; [discriminate|].
  intros [= <-]. apply orb_false_iff in E as [E1 E2].
  apply Z.ltb_ge in E1. apply Z.ltb_ge in E2. lia.
Qed.

(** Moving to globals that differ in the last error only, in the endpoint
    through a successful parse, or in the cache through a reset or a store
    of a positive TTL, keeps the globals well formed. *)
Lemma well_formed_frame (crack : wstring -> option UrlComponents) (g g' : Globals) :
  well_formed crack g ->
  g_initialized g' = g_initialized g ->
  g_hSession g' = g_hSession g ->
  g_endpointUrl g' = g_endpointUrl g ->
  (endpoint_of g' = endpoint_of g
   \/ exists url urlComp, crack url = Some urlComp /\ endpoint_of g' = endpoint_from urlComp) ->
  ((g_cachedToken g' = g_cachedToken g /\ g_tokenTTL g' = g_tokenTTL g)
   \/ (g_cachedToken g' = EmptyString /\ g_tokenTTL g' = 0)
   \/ (g_initialized g = true /\ 0 < g_tokenTTL g' <= INT_MAX)) ->
  well_formed crack g'.
Proof.
  intros (Hsess & Htok & Httl & Hurl & Hend) Hi Hs Hu He Hc.
  unfold well_formed. rewrite Hi, Hs, Hu.
  split; [assumption|].
  split.
  { destruct Hc as [[-> ->]|[[-> ->]|[Hinit Hpos]]]; [assumption | discriminate |].
    intros _. split; [assumption | lia]. }
  split.
  { destruct Hc as [[_ ->]|[[_ ->]|[_ Hpos]]]; [assumption | |lia].
    unfold INT_MAX. lia. }
  split; [assumption|].
  intros Hinit. destruct He as [->|He]; [auto | assumption].
Qed.

Section Invariants.

Variable crack : wstring -> option UrlComponents.
Variable mb : string -> option wstring.
Variable tps : positive.

(** What a validation does to the cache: nothing, a reset, or the store of
    a positive TTL by an initialized module. *)
Lemma ValidateLicense_cache_change (w : World)
    (key account broker deviceId endpointUrl : option string)
    (outToken outError : option buffer) (g : Globals) :
  let r := ValidateLicense crack mb tps w key account broker deviceId endpointUrl
             outToken outError g in
  (g_cachedToken (globals r) = g_cachedToken g /\ g_tokenTTL (globals r) = g_tokenTTL g)
  \/ (g_cachedToken (globals r) = EmptyString /\ g_tokenTTL (globals r) = 0)
  \/ (g_initialized g = true /\ 0 < g_tokenTTL (globals r) <= INT_MAX).
Proof.
  unfold ValidateLicense.
  destruct (g_initialized g) eqn:Hinit; simpl negb; cbv iota; [|left; split; reflexivity].
  destruct (negb (str_empty (g_cachedToken g)) && (now w <? g_tokenExpiry g));
    cbn -[RetryLoop]; [left; split; reflexivity|].
  destruct (apply_endpoint_override_keeps crack mb endpointUrl g) as (Hcache & _).
  set (g0 := apply_endpoint_override crack mb endpointUrl g) in *.
  destruct (RetryLoop _ _ _ _ _ _ _) as [[l g1] evs] eqn:Hloop.
  apply RetryLoop_frame in Hloop. unfold same_but_lastError in Hloop.
  assert (H1 : g_cachedToken g1 = g_cachedToken g /\ g_tokenTTL g1 = g_tokenTTL g).
  { rewrite Hloop. simpl. unfold cache_of in Hcache. split; congruence. }
  unfold after_transport.
  destruct (success l); simpl; [|left; assumption].
  destruct (httpStatus l =? 200); simpl; [|left; assumption].
  destruct (String.eqb _ "true"); simpl; [|right; left; split; reflexivity].
  destruct (str_empty (ExtractJsonValue (responseBody l) "ttlSeconds")); simpl.
  - right. right. split; [reflexivity|]. unfold INT_MAX. lia.
  - destruct (stoi _) as [v| |] eqn:Hstoi; simpl; [|left; assumption|left; assumption].
    right. right. split; [reflexivity|].
    apply stoi_range in Hstoi. unfold INT_MAX, INT_MIN in *.
    destruct (Z.leb_spec v 0); lia.
Qed.

Lemma exec_well_formed (w : World) (c : Call) (g : Globals) :
  well_formed crack g -> well_formed crack (exec crack mb tps w c g).
Proof.
  intros Hwf. pose proof Hwf as (Hsess & Htok & Httl & Hurl & Hend).
  destruct c; simpl; try assumption.
  - (* InitializeLibrary *)
    unfold InitializeLibrary.
    destruct (g_initialized g) eqn:Hinit; simpl; [assumption|].
    assert (Hnone : g_hSession g = None).
    { destruct (g_hSession g) as [h|]; [|reflexivity].
      assert (false = true) by (apply Hsess; discriminate). discriminate. }
    assert (Hempty : str_empty (g_cachedToken g) = true).
    { destruct (str_empty (g_cachedToken g)); [reflexivity|].
      destruct Htok as [Hi _]; [reflexivity | discriminate Hi]. }
    destruct (WinHttpOpen w) as [h|]; simpl.
    + destruct (ParseUrl_cases crack (g_endpointUrl g) (set_hSession (Some h) g))
        as [[_ ->]|(urlComp & Hc & ->)]; simpl.
      * apply (well_formed_frame crack g); auto.
      * unfold well_formed. simpl. rewrite Hempty.
        split; [split; [discriminate | reflexivity]|].
        split; [discriminate|]. split; [assumption|].
        split; [eauto|]. intros _. exists (g_endpointUrl g), urlComp. auto.
    + apply (well_formed_frame crack g); auto.
  - (* ShutdownLibrary *)
    unfold ShutdownLibrary. destruct (g_initialized g) eqn:Hinit; simpl; [|assumption].
    unfold well_formed, INT_MAX. simpl.
    split; [split; [discriminate | intros H; exfalso; apply H; reflexivity]|].
    split; [discriminate|]. split; [lia|]. split; discriminate.
  - (* SetEndpoint *)
    unfold SetEndpoint. destruct url as [s|]; [|assumption].
    destruct (str_empty s); [assumption|].
    destruct (ParseUrl_cases crack (Utf8ToWide mb (Some s)) g)
      as [[_ ->]|(urlComp & Hc & ->)]; simpl.
    + apply (well_formed_frame crack g); auto.
    + unfold well_formed. simpl.
      split; [assumption|]. split; [assumption|]. split; [assumption|].
      split; [eauto|]. intros _. exists (Utf8ToWide mb (Some s)), urlComp. auto.
  - (* ValidateLicense *)
    destruct (ValidateLicense_lifecycle crack mb tps w key account broker deviceId
                endpointUrl outToken outError g) as (Hi & Hh & Hu & He).
    apply (well_formed_frame crack g); try assumption.
    + rewrite He. destruct (g_initialized g && _); [|auto].
      destruct (apply_endpoint_override_cases crack mb endpointUrl g)
        as [->|[->|(url & urlComp & Hc & ->)]]; [auto | auto |].
      right. eauto.
    + apply ValidateLicense_cache_change.
  - (* ClearCache *)
    apply (well_formed_frame crack g); auto.
Qed.

Lemma reachable_well_formed (g : Globals) :
  reachable crack mb tps g -> well_formed crack g.
Proof.
  induction 1 as [|g w c _ IH].
  - unfold well_formed, initial, INT_MAX. simpl. repeat split; try discriminate; try lia.
    intros H. exfalso. apply H. reflexivity.
  - apply exec_well_formed, IH.
Qed.

(** X7: in every state the host can reach: the session handle is held exactly
    while the module is initialized; a cached token belongs to an
    initialized module and has a positive TTL; the stored TTL lies between 0
    and [INT_MAX]; and the URL and the active endpoint of an initialized
    module each come from a parse that succeeded. *)
Theorem reachable_invariants (g : Globals) :
  reachable crack mb tps g ->
  (g_initialized g = true <-> g_hSession g <> None)
  /\ (str_empty (g_cachedToken g) = false -> g_initialized g = true /\ 0 < g_tokenTTL g)
  /\ 0 <= g_tokenTTL g <= INT_MAX
  /\ (g_initialized g = true -> exists urlComp, crack (g_endpointUrl g) = Some urlComp)
  /\ (g_initialized g = true ->
      exists url urlComp,
        crack url = Some urlComp
        /\ host (endpoint_of g) = lpszHostName urlComp
        /\ path (endpoint_of g) = lpszUrlPath urlComp
        /\ port (endpoint_of g) = nPort urlComp
        /\ isSecure (endpoint_of g) = (nScheme urlComp =? INTERNET_SCHEME_HTTPS)).
Proof.
  intros Hr. destruct (reachable_well_formed g Hr) as (H1 & H2 & H3 & H4 & H5).
  split; [assumption|]. split; [assumption|]. split; [assumption|].
  split; [assumption|].
  intros Hinit. destruct (H5 Hinit) as (url & urlComp & Hc & He).
  exists url, urlComp. rewrite He. repeat split. assumption.
Qed.

End Invariants.

(** ** Lifecycle *)

Section Lifecycle.

Variable crack : wstring -> option UrlComponents.
Variable mb : string -> option wstring.
Variable tps : positive.

(** X8: [InitializeLibrary] returns 0, -1 or -2. It returns 0 exactly when the
    module is initialized afterwards, -1 exactly when an uninitialized module
    gets no session, and -2 exactly when the session opens but the configured
    URL does not parse. A failure leaves a non-empty last error and no
    session handle. The token cache and the configured URL are never
    touched, and initializing an initialized module changes nothing. *)
Theorem InitializeLibrary_outcome (w : World) (g : Globals) :
  let code := fst (InitializeLibrary crack w g) in
  let g' := snd (InitializeLibrary crack w g) in
  (code = 0 \/ code = -1 \/ code = -2)
  /\ (code = 0 <-> g_initialized g' = true)
  /\ (code = -1 <-> g_initialized g = false /\ WinHttpOpen w = None)
  /\ (code = -2 <->
      g_initialized g = false /\ WinHttpOpen w <> None /\ crack (g_endpointUrl g) = None)
  /\ (code <> 0 -> str_empty (g_lastError g') = false /\ g_hSession g' = None)
  /\ cache_of g' = cache_of g
  /\ g_endpointUrl g' = g_endpointUrl g
  /\ (code = 0 -> forall w', InitializeLibrary crack w' g' = (0, g')).
Proof.
  unfold InitializeLibrary.
  destruct (g_initialized g) eqn:Hinit; simpl.
  { rewrite Hinit. intuition (try congruence; try discriminate). }
  destruct (WinHttpOpen w) as [h|] eqn:Hopen; simpl.
  - unfold ParseUrl. simpl. destruct (crack (g_endpointUrl g)) as [c|] eqn:Hc; simpl.
    + intuition (try congruence; try discriminate).
    + rewrite Hinit. intuition (try congruence; try discriminate).
  - rewrite Hinit. intuition (try congruence; try discriminate).
Qed.

(** X9: after [ShutdownLibrary], from any reachable state: the module is not
    initialized, holds no session handle and no token; the endpoint and the
    last error survive; a second shutdown changes nothing; and
    [ValidateLicense] returns -1 with "Library not initialized" in
    [outError], without touching the network, the globals or [outToken]. *)
Theorem ShutdownLibrary_then_ValidateLicense (g : Globals) :
  reachable crack mb tps g ->
  let g' := ShutdownLibrary g in
  g_initialized g' = false
  /\ g_hSession g' = None
  /\ g_cachedToken g' = EmptyString
  /\ endpoint_of g' = endpoint_of g
  /\ g_endpointUrl g' = g_endpointUrl g
  /\ g_lastError g' = g_lastError g
  /\ ShutdownLibrary g' = g'
  /\ (forall w key account broker deviceId endpointUrl outToken outError,
        let r := ValidateLicense crack mb tps w key account broker deviceId
                   endpointUrl outToken outError g' in
        ret r = Returns (-1)
        /\ events r = []
        /\ globals r = g'
        /\ tokenOut r = outToken
        /\ (forall b, outError = Some b ->
              exists b', errorOut r = Some b'
                         /\ read_c_string b' = c_str "Library not initialized")).
Proof.
  intros Hr g'.
  destruct (reachable_well_formed crack mb tps g Hr) as (Hsess & Htok & _).
  assert (Hinit : g_initialized g' = false)
    by (subst g'; unfold ShutdownLibrary; destruct (g_initialized g) eqn:E; simpl; auto).
  assert (Hnone : g_hSession g' = None).
  { subst g'. unfold ShutdownLibrary. destruct (g_initialized g) eqn:E; simpl; [reflexivity|].
    destruct (g_hSession g) as [h|]; [|reflexivity].
    assert (false = true) by (apply Hsess; discriminate). discriminate. }
  assert (Hempty : g_cachedToken g' = EmptyString).
  { subst g'. unfold ShutdownLibrary. destruct (g_initialized g) eqn:E; simpl; [reflexivity|].
    destruct (g_cachedToken g) as [|c t]; [reflexivity|].
    destruct Htok as [Hi _]; [reflexivity | discriminate Hi]. }
  split; [assumption|]. split; [assumption|]. split; [assumption|].
  split; [subst g'; unfold ShutdownLibrary; destruct (g_initialized g); reflexivity|].
  split; [subst g'; unfold ShutdownLibrary; destruct (g_initialized g); reflexivity|].
  split; [subst g'; unfold ShutdownLibrary; destruct (g_initialized g); reflexivity|].
  split; [unfold ShutdownLibrary at 1; rewrite Hinit; reflexivity|].
  intros w key account broker deviceId endpointUrl outToken outError r.
  subst r. unfold ValidateLicense. rewrite Hinit.
  change (negb false) with true. cbv iota.
  cbn [ret events globals tokenOut errorOut].
  repeat split. intros b ->.
  exists (strncpy b (c_str "Library not initialized") 255).
  split; [reflexivity|].
  apply read_strncpy_short;
    [exact (c_str_NUL_free "Library not initialized") | vm_compute; lia].
Qed.

(** X10: [DllMain] keeps the module within the reachable states whatever the
    notification; on process detach it does what [ShutdownLibrary] does, so
    that no session handle and no token are left; the other notifications
    change nothing. *)
Theorem DllMain_releases (reason : Reason) (g : Globals) :
  reachable crack mb tps g ->
  reachable crack mb tps (DllMain reason g)
  /\ (reason = DLL_PROCESS_DETACH ->
      DllMain reason g = ShutdownLibrary g
      /\ g_initialized (DllMain reason g) = false
      /\ g_hSession (DllMain reason g) = None
      /\ g_cachedToken (DllMain reason g) = EmptyString)
  /\ (reason <> DLL_PROCESS_DETACH -> DllMain reason g = g).
Proof.
  intros Hr.
  assert (Hsame : DllMain DLL_PROCESS_DETACH g = ShutdownLibrary g)
    by (unfold DllMain, ShutdownLibrary; destruct (g_initialized g); reflexivity).
  assert (Hstep : reachable crack mb tps (ShutdownLibrary g))
    by (apply (reachable_step crack mb tps g (mkWorld 0 0 (fun _ => ConnectFailed 0) None 0)
                 CallShutdownLibrary Hr)).
  split; [destruct reason; simpl; try assumption; rewrite <- Hsame in Hstep; exact Hstep|].
  split.
  - intros ->. rewrite Hsame.
    destruct (reachable_well_formed crack mb tps _ Hstep) as (Hsess & Htok & _).
    assert (Hinit : g_initialized (ShutdownLibrary g) = false)
      by (unfold ShutdownLibrary; destruct (g_initialized g) eqn:E; simpl; auto).
    split; [reflexivity|]. split; [assumption|]. split.
    + destruct (g_hSession (ShutdownLibrary g)) as [h|]; [|reflexivity].
      assert (g_initialized (ShutdownLibrary g) = true) by (apply Hsess; discriminate).
      congruence.
    + destruct (g_cachedToken (ShutdownLibrary g)) as [|c t]; [reflexivity|].
      destruct Htok as [Hi _]; [reflexivity | congruence].
  - intros Hne. destruct reason; try reflexivity. exfalso. apply Hne. reflexivity.
Qed.

(** ** Token cache *)

(** X13: after [ClearCache], whatever the state before: [GetCachedToken] returns
    -1 and leaves the buffer alone, [IsTokenValid] and [GetTokenTTL] return
    0, the last error is empty, and neither the lifecycle nor the endpoint
    configuration has changed. *)
Theorem ClearCache_then_queries (w : World) (outToken : option buffer) (tokenLen : Z)
    (g : Globals) :
  let g' := ClearCache g in
  GetCachedToken w outToken tokenLen g' = (-1, outToken)
  /\ IsTokenValid w g' = 0
  /\ GetTokenTTL tps w g' = 0
  /\ ~ fresh (now w) g'
  /\ g_lastError g' = EmptyString
  /\ g_initialized g' = g_initialized g
  /\ g_hSession g' = g_hSession g
  /\ endpoint_of g' = endpoint_of g
  /\ g_endpointUrl g' = g_endpointUrl g
  /\ ClearCache g' = g'.
Proof.
  repeat split. intros [H _]. discriminate H.
Qed.

(** X14: the three cache queries agree: [GetCachedToken] returns 0 exactly when
    [IsTokenValid] returns 1, that is when a token is held and the clock is
    before its expiry; it returns -1 exactly when no token is held and -2
    exactly when a token is held and has expired, and then it leaves the
    buffer alone; and [GetTokenTTL] is 0 unless the token is valid. *)
Theorem cache_queries_agree (w : World) (outToken : option buffer) (tokenLen : Z)
    (g : Globals) :
  (fst (GetCachedToken w outToken tokenLen g) = 0 <-> fresh (now w) g)
  /\ (fst (GetCachedToken w outToken tokenLen g) = -1
      <-> str_empty (g_cachedToken g) = true)
  /\ (fst (GetCachedToken w outToken tokenLen g) = -2
      <-> str_empty (g_cachedToken g) = false /\ g_tokenExpiry g <= now w)
  /\ (IsTokenValid w g = 1 <-> fst (GetCachedToken w outToken tokenLen g) = 0)
  /\ (fst (GetCachedToken w outToken tokenLen g) <> 0 ->
      snd (GetCachedToken w outToken tokenLen g) = outToken)
  /\ (GetTokenTTL tps w g <> 0 -> IsTokenValid w g = 1).
Proof.
  unfold GetCachedToken, IsTokenValid, GetTokenTTL, fresh.
  destruct (str_empty (g_cachedToken g)) eqn:Htok.
  { simpl. repeat split; auto; try discriminate; try tauto.
    - intros [H _]. discriminate H.
    - intros [H _]. discriminate H. }
  destruct (Z.leb_spec (g_tokenExpiry g) (now w)) as [Hle|Hgt];
    destruct (Z.ltb_spec (now w) (g_tokenExpiry g)) as [Hlt|Hge]; try lia.
  - simpl. repeat split; auto; try discriminate; try tauto; try lia.
  - assert (Hret : fst (match outToken with
                        | Some b =>
                            if 0 <? tokenLen
                            then (0, Some (<[Z.to_nat (tokenLen - 1):=NUL]>
                                             (strncpy b (c_str (g_cachedToken g))
                                                (Z.to_nat (tokenLen - 1)))))
                            else (0, outToken)
                        | None => (0, outToken)
                        end) = 0)
      by (destruct outToken; [destruct (0 <? tokenLen)|]; reflexivity).
    rewrite Hret. repeat split; auto; try discriminate; try tauto; try lia.
Qed.

(** X15: a token with less than one second left is still valid, yet its
    remaining TTL reads 0. *)
Theorem GetTokenTTL_last_second (w : World) (g : Globals) :
  fresh (now w) g ->
  g_tokenExpiry g - now w < Z.pos tps ->
  IsTokenValid w g = 1 /\ GetTokenTTL tps w g = 0.
Proof.
  intros [Htok Hlt] Hshort. unfold IsTokenValid, GetTokenTTL. rewrite Htok.
  destruct (Z.ltb_spec (now w) (g_tokenExpiry g)); [|lia].
  destruct (Z.leb_spec (g_tokenExpiry g) (now w)); [lia|].
  split; [reflexivity|].
  rewrite Z.quot_small by lia. reflexivity.
Qed.

(** ** Last error *)

(** A copy of [n] bytes followed by a terminator at index [n]. *)
Lemma terminated_copy (b : buffer) (src : list ascii) (n : nat) :
  Forall (fun c => Ascii.eqb c NUL = false) src ->
  (n < length b)%nat ->
  let b' := <[n := NUL]> (strncpy b src n) in
  length b' = length b
  /\ b' !! n = Some NUL
  /\ read_c_string b' = take n src
  /\ drop (S n) b' = drop (S n) b.
Proof.
  intros Hfree Hn b'. subst b'. repeat split.
  - rewrite length_insert, strncpy_length by lia. reflexivity.
  - apply list_lookup_insert_eq. rewrite strncpy_length by lia. assumption.
  - rewrite read_c_string_terminate. apply take_read_strncpy. assumption.
  - rewrite drop_insert_lt by lia. unfold strncpy.
    rewrite drop_app_ge by (rewrite length_resize; lia).
    rewrite length_resize, drop_drop. f_equal. lia.
Qed.

(** X17: [GetLastError] copies the last error as a C string cut to
    [errorLen - 1] bytes, terminates it at index [errorLen - 1] and writes
    nothing further; without a buffer, or with a length that is not
    positive, it does nothing. It never changes the globals, so the error
    can be read again. *)
Theorem GetLastError_copies (outError : option buffer) (errorLen : Z) (g : Globals) :
  (outError = None -> GetLastError outError errorLen g = None)
  /\ (errorLen <= 0 -> GetLastError outError errorLen g = outError)
  /\ (forall b,
        outError = Some b ->
        1 <= errorLen <= Z.of_nat (length b) ->
        exists b',
          GetLastError outError errorLen g = Some b'
          /\ length b' = length b
          /\ b' !! Z.to_nat (errorLen - 1) = Some NUL
          /\ read_c_string b' = take (Z.to_nat (errorLen - 1)) (c_str (g_lastError g))
          /\ drop (Z.to_nat errorLen) b' = drop (Z.to_nat errorLen) b)
  /\ (forall w, exec crack mb tps w (CallGetLastError outError errorLen) g = g).
Proof.
  unfold GetLastError. split; [intros ->; reflexivity|].
  split.
  { intros Hle. destruct outError; [|reflexivity].
    destruct (Z.ltb_spec 0 errorLen); [lia | reflexivity]. }
  split; [|reflexivity].
  intros b -> [Hlo Hhi].
  destruct (Z.ltb_spec 0 errorLen); [|lia].
  destruct (terminated_copy b (c_str (g_lastError g)) (Z.to_nat (errorLen - 1)))
    as (Hlen & Hnul & Hread & Hdrop); [apply c_str_NUL_free | lia |].
  eexists. split; [reflexivity|].
  split; [assumption|]. split; [assumption|]. split; [assumption|].
  replace (Z.to_nat errorLen) with (S (Z.to_nat (errorLen - 1))) by lia.
  assumption.
Qed.

(** ** Endpoint configuration across the lifecycle *)

(** X11: an endpoint URL set before initialization is the one initialization
    resolves: [SetEndpoint] with a URL that parses installs its components
    and remembers the URL without touching the last error, and a following
    [InitializeLibrary] that gets a session returns 0 with that endpoint
    active. [SetEndpoint] with [NULL] or an empty string changes nothing. *)
Theorem SetEndpoint_then_InitializeLibrary (url : string) (urlComp : UrlComponents)
    (w : World) (h : N) (g : Globals) :
  str_empty url = false ->
  crack (Utf8ToWide mb (Some url)) = Some urlComp ->
  g_initialized g = false ->
  WinHttpOpen w = Some h ->
  let g1 := SetEndpoint crack mb (Some url) g in
  let g2 := snd (InitializeLibrary crack w g1) in
  endpoint_of g1 = endpoint_from urlComp
  /\ g_endpointUrl g1 = Utf8ToWide mb (Some url)
  /\ g_lastError g1 = g_lastError g
  /\ fst (InitializeLibrary crack w g1) = 0
  /\ g_initialized g2 = true
  /\ g_hSession g2 = Some h
  /\ endpoint_of g2 = endpoint_from urlComp
  /\ SetEndpoint crack mb None g = g
  /\ SetEndpoint crack mb (Some EmptyString) g = g.
Proof.
  intros Hurl Hc Hinit Hopen g1 g2.
  assert (Hg1 : g1 = set_endpointUrl (Utf8ToWide mb (Some url))
                       (set_endpoint (lpszHostName urlComp) (lpszUrlPath urlComp)
                          (nPort urlComp) (nScheme urlComp =? INTERNET_SCHEME_HTTPS) g)).
  { subst g1. unfold SetEndpoint, ParseUrl. rewrite Hurl, Hc. reflexivity. }
  assert (Hi1 : g_initialized g1 = false) by (rewrite Hg1; exact Hinit).
  assert (Hu1 : g_endpointUrl g1 = Utf8ToWide mb (Some url)) by (rewrite Hg1; reflexivity).
  assert (Hinit1 : InitializeLibrary crack w g1
                   = (0, set_initialized true
                           (set_endpoint (lpszHostName urlComp) (lpszUrlPath urlComp)
                              (nPort urlComp) (nScheme urlComp =? INTERNET_SCHEME_HTTPS)
                              (set_hSession (Some h) g1)))).
  { unfold InitializeLibrary. rewrite Hi1, Hopen.
    cbn [g_hSession set_hSession g_endpointUrl]. unfold ParseUrl.
    rewrite Hu1, Hc. reflexivity. }
  subst g2. rewrite Hinit1.
  split; [rewrite Hg1; reflexivity|]. split; [assumption|].
  split; [rewrite Hg1; reflexivity|]. repeat split.
Qed.

End Lifecycle.

(** ** Transport *)

Lemma failure_text_nonempty (x : HttpExchange) (text : string) :
  failure_text x = Some text -> str_empty text = false.
Proof.
  destruct x; simpl; try (intros [= <-]; reflexivity); try discriminate.
  destruct (err =? ERROR_WINHTTP_SECURE_FAILURE); intros [= <-]; reflexivity.
Qed.

(** X6: [HttpPost] changes no global but the last error. It reports success
    exactly when a session is held and the exchange runs to its end; then the
    globals are as before and the caller receives the status narrowed to
    [int] and the chunks read, in order. When it fails the last error is a
    non-empty text; without a session the caller's status and body are left
    as they were. *)
Theorem HttpPost_outcome (x : HttpExchange) (l : Locals) (g : Globals) :
  let l' := fst (HttpPost x l g) in
  let g' := snd (HttpPost x l g) in
  same_but_lastError g g'
  /\ (success l' = true <->
      g_hSession g <> None /\ exists statusCode chunks, x = Completed statusCode chunks)
  /\ (forall statusCode chunks,
        g_hSession g <> None ->
        x = Completed statusCode chunks ->
        g' = g /\ httpStatus l' = to_int statusCode
        /\ responseBody l' = read_chunks chunks)
  /\ (success l' = false -> str_empty (g_lastError g') = false)
  /\ (g_hSession g = None ->
      httpStatus l' = httpStatus l /\ responseBody l' = responseBody l).
Proof.
  unfold HttpPost. destruct (g_hSession g) as [h|] eqn:Hs.
  - destruct (written_by x l) as [status body] eqn:Hw.
    destruct (failure_text x) as [text|] eqn:Hf; simpl.
    + split; [reflexivity|]. split.
      { split; [discriminate|]. intros [_ (s & c & ->)]. discriminate Hf. }
      split; [intros s c _ ->; discriminate Hf|].
      split; [intros _; apply (failure_text_nonempty x); assumption | discriminate].
    + destruct (failure_text_None x Hf) as (s & c & ->). simpl in Hw.
      injection Hw as <- <-.
      split; [apply same_but_lastError_refl|]. split.
      { split; [intros _; split; [discriminate | eauto] | reflexivity]. }
      split; [intros s' c' _ [= <- <-]; repeat split|].
      split; discriminate.
  - simpl. split; [reflexivity|]. split.
    { split; [discriminate | intros [H _]; exfalso; apply H; reflexivity]. }
    split; [intros s c H; exfalso; apply H; reflexivity|].
    split; [reflexivity | intros _; split; reflexivity].
Qed.

(** ** Validation *)

Section Validation.

Variable crack : wstring -> option UrlComponents.
Variable mb : string -> option wstring.
Variable tps : positive.

(** What a return of 0 after a completed exchange means. *)
Lemma after_transport_returns_0 (w : World) (outToken outError : option buffer)
    (l : Locals) (g : Globals) (evs : list Event) :
  success l = true ->
  ret (after_transport tps w outToken outError l g evs) = Returns 0 ->
  exists ttl,
    0 < ttl <= INT_MAX
    /\ httpStatus l = 200
    /\ after_transport tps w outToken outError l g evs
       = mkResult (Returns 0)
           (strncpy_to outToken (ExtractJsonValue (responseBody l) "token") 511)
           outError
           (set_lastError EmptyString
              (set_token (ExtractJsonValue (responseBody l) "token") ttl
                 (now_at_store w + ttl * Z.pos tps) g))
           evs.
Proof.
  intros Hl. unfold after_transport. rewrite Hl. simpl.
  destruct (Z.eqb_spec (httpStatus l) 200) as [Hs|_]; simpl; [|discriminate].
  destruct (String.eqb _ "true"); simpl; [|discriminate].
  destruct (str_empty (ExtractJsonValue (responseBody l) "ttlSeconds")); simpl.
  - intros _. exists 900. unfold INT_MAX. repeat split; lia.
  - destruct (stoi _) as [v| |] eqn:Hstoi; simpl; try discriminate.
    intros _. apply stoi_range in Hstoi. unfold INT_MIN, INT_MAX in *.
    exists (if v <=? 0 then 900 else v).
    destruct (Z.leb_spec v 0); repeat split; lia.
Qed.

(** The globals after a validation that went to the server and returned 0. *)
Lemma ValidateLicense_stored (w : World)
    (key account broker deviceId endpointUrl : option string)
    (outToken outError : option buffer) (g : Globals)
    (n : nat) (statusCode : Z) (chunks : list (option string)) :
  reachable crack mb tps g ->
  g_initialized g = true ->
  ~ fresh (now w) g ->
  completes_at w n statusCode chunks ->
  let r := ValidateLicense crack mb tps w key account broker deviceId endpointUrl
             outToken outError g in
  ret r = Returns 0 ->
  exists ttl,
    0 < ttl <= INT_MAX
    /\ g_initialized (globals r) = true
    /\ g_cachedToken (globals r) = ExtractJsonValue (read_chunks chunks) "token"
    /\ g_tokenTTL (globals r) = ttl
    /\ g_tokenExpiry (globals r) = now_at_store w + ttl * Z.pos tps
    /\ g_lastError (globals r) = EmptyString
    /\ tokenOut r = strncpy_to outToken (ExtractJsonValue (read_chunks chunks) "token") 511.
Proof.
  intros Hr Hinit Hmiss Hc r Hret.
  destruct (ValidateLicense_lifecycle crack mb tps w key account broker deviceId
              endpointUrl outToken outError g) as (Hi & _).
  destruct (ValidateLicense_completed crack mb tps w key account broker deviceId
              endpointUrl outToken outError g n statusCode chunks Hr Hinit Hmiss Hc)
    as (g1 & evs & Heq & _).
  fold r in Hi, Heq. rewrite Heq in Hret.
  destruct (after_transport_returns_0 w outToken outError
              (mkLocals true (read_chunks chunks) (to_int statusCode)) g1 evs eq_refl Hret)
    as (ttl & Httl & _ & Hafter).
  exists ttl. split; [assumption|]. split; [congruence|].
  rewrite Heq, Hafter. simpl. repeat split.
Qed.

(** X18: after a validation that reached the server, returned 0 and stored a
    non-empty token, a further validation made before the expiry returns 0
    with that token, whatever its arguments, without any [HttpPost] or
    [Sleep] and without changing the globals. *)
Theorem ValidateLicense_twice (w w2 : World)
    (key account broker deviceId endpointUrl : option string)
    (key2 account2 broker2 deviceId2 endpointUrl2 : option string)
    (outToken outError outToken2 outError2 : option buffer) (g : Globals)
    (n : nat) (statusCode : Z) (chunks : list (option string)) :
  reachable crack mb tps g ->
  g_initialized g = true ->
  ~ fresh (now w) g ->
  completes_at w n statusCode chunks ->
  let r := ValidateLicense crack mb tps w key account broker deviceId endpointUrl
             outToken outError g in
  let token := ExtractJsonValue (read_chunks chunks) "token" in
  ret r = Returns 0 ->
  str_empty token = false ->
  now w2 < now_at_store w + g_tokenTTL (globals r) * Z.pos tps ->
  let r2 := ValidateLicense crack mb tps w2 key2 account2 broker2 deviceId2 endpointUrl2
              outToken2 outError2 (globals r) in
  ret r2 = Returns 0
  /\ events r2 = []
  /\ globals r2 = globals r
  /\ tokenOut r2 = strncpy_to outToken2 token 511
  /\ errorOut r2 = outError2
  /\ g_lastError (globals r2) = EmptyString.
Proof.
  intros Hr Hinit Hmiss Hc r token Hret Htok Hnow r2.
  destruct (ValidateLicense_stored w key account broker deviceId endpointUrl
              outToken outError g n statusCode chunks Hr Hinit Hmiss Hc Hret)
    as (ttl & _ & Hi & Hcached & Httl & Hexp & Herr & _).
  fold r in Hi, Hcached, Httl, Hexp, Herr. fold token in Hcached.
  assert (Hfresh : negb (str_empty (g_cachedToken (globals r)))
                   && (now w2 <? g_tokenExpiry (globals r)) = true).
  { rewrite Hcached, Htok, Hexp, <- Httl. simpl. apply Z.ltb_lt. assumption. }
  subst r2. unfold ValidateLicense. rewrite Hi, Hfresh. simpl.
  rewrite Hcached. repeat split. assumption.
Qed.


(** X16: after a validation that stored a token, and as long as the clock has
    not gone back behind the instant of the store, [GetTokenTTL] lies between
    0 and the stored TTL; at the instant of the store it is the stored TTL. *)
Theorem GetTokenTTL_after_store (w w' : World)
    (key account broker deviceId endpointUrl : option string)
    (outToken outError : option buffer) (g : Globals)
    (n : nat) (statusCode : Z) (chunks : list (option string)) :
  reachable crack mb tps g ->
  g_initialized g = true ->
  ~ fresh (now w) g ->
  completes_at w n statusCode chunks ->
  let r := ValidateLicense crack mb tps w key account broker deviceId endpointUrl
             outToken outError g in
  ret r = Returns 0 ->
  str_empty (ExtractJsonValue (read_chunks chunks) "token") = false ->
  now_at_store w <= now w' ->
  0 <= GetTokenTTL tps w' (globals r) <= g_tokenTTL (globals r)
  /\ (now w' = now_at_store w -> GetTokenTTL tps w' (globals r) = g_tokenTTL (globals r)).
Proof.
  intros Hr Hinit Hmiss Hc r Hret Htok Hclock.
  destruct (ValidateLicense_stored w key account broker deviceId endpointUrl
              outToken outError g n statusCode chunks Hr Hinit Hmiss Hc Hret)
    as (ttl & Hrange & _ & Hcached & Httl & Hexp & _).
  fold r in Hcached, Httl, Hexp.
  unfold GetTokenTTL. rewrite Hcached, Htok, Hexp, Httl.
  set (t0 := now_at_store w) in *. set (t := now w') in *.
  assert (Htps : 0 < Z.pos tps) by lia.
  destruct (Z.leb_spec (t0 + ttl * Z.pos tps) t) as [Hle|Hgt].
  - split; [lia|]. intros ->. nia.
  - rewrite Z.quot_div_nonneg by lia.
    assert (Hlo : 0 <= (t0 + ttl * Z.pos tps - t) / Z.pos tps) by (apply Z.div_pos; lia).
    assert (Hhi : (t0 + ttl * Z.pos tps - t) / Z.pos tps <= ttl)
      by (apply Z.div_le_upper_bound; [lia | nia]).
    rewrite to_int_small by (unfold INT_MIN, INT_MAX in *; lia).
    split; [lia|]. intros ->.
    replace (t0 + ttl * Z.pos tps - t0) with (ttl * Z.pos tps) by lia.
    apply Z.div_mul. lia.
Qed.

(** X20: every return of [ValidateLicense] from a reachable state is one of 0,
    -1, -2, -3, -4. It is -1 exactly when the module is not initialized, and
    then nothing happens. After -2, -3 or -4 the last error is a non-empty
    text, [outError] has received its first 255 bytes and [outToken] is
    untouched. A network failure (-2) comes after exactly three attempts and
    leaves the cached token, its TTL and its expiry as they were. *)
Theorem ValidateLicense_failure_reports (w : World)
    (key account broker deviceId endpointUrl : option string)
    (outToken outError : option buffer) (g : Globals) :
  reachable crack mb tps g ->
  let r := ValidateLicense crack mb tps w key account broker deviceId endpointUrl
             outToken outError g in
  (forall code, ret r = Returns code ->
     code = 0 \/ code = -1 \/ code = -2 \/ code = -3 \/ code = -4)
  /\ (ret r = Returns (-1) <-> g_initialized g = false)
  /\ (ret r = Returns (-1) -> globals r = g /\ events r = [] /\ tokenOut r = outToken)
  /\ (ret r = Returns (-2) \/ ret r = Returns (-3) \/ ret r = Returns (-4) ->
      str_empty (g_lastError (globals r)) = false
      /\ errorOut r = strncpy_to outError (g_lastError (globals r)) 255
      /\ tokenOut r = outToken)
  /\ (ret r = Returns (-2) ->
      cache_of (globals r) = cache_of g /\ attempts (events r) = 3%nat).
Proof.
  intros Hr r.
  destruct (g_initialized g) eqn:Hinit.
  2: { subst r. unfold ValidateLicense. rewrite Hinit. simpl.
       intuition (try congruence; try discriminate). }
  destruct (negb (str_empty (g_cachedToken g)) && (now w <? g_tokenExpiry g)) eqn:Hhit.
  { subst r. unfold ValidateLicense. rewrite Hinit, Hhit. simpl.
    intuition (try congruence; try discriminate). }
  assert (Hmiss : ~ fresh (now w) g)
    by (intros Hf; apply fresh_test in Hf; congruence).
  destruct (transport_cases w) as [(n & statusCode & chunks & Hc)|Hfail].
  - destruct (ValidateLicense_completed crack mb tps w key account broker deviceId
                endpointUrl outToken outError g n statusCode chunks Hr Hinit Hmiss Hc)
      as (g1 & evs & Heq & _ & Hcache & Hatt & _).
    subst r. rewrite Heq. unfold after_transport. simpl.
    destruct (to_int statusCode =? 200); simpl.
    2: { intuition (try congruence; try discriminate). }
    destruct (String.eqb _ "true"); simpl.
    2: { destruct (str_empty (ExtractJsonValue (read_chunks chunks) "message")) eqn:Hm;
           simpl; intuition (try congruence; try discriminate). }
    destruct (if negb (str_empty _) then _ else _); simpl;
      intuition (try congruence; try discriminate).
  - destruct (ValidateLicense_all_failed crack mb tps w key account broker deviceId
                endpointUrl outToken outError g Hr Hinit Hmiss Hfail)
      as (text & evs & Heq & Htext & Hatt & _).
    destruct (apply_endpoint_override_keeps crack mb endpointUrl g) as (Hcache & _).
    apply failure_text_nonempty in Htext.
    subst r. rewrite Heq. simpl.
    intuition (try congruence; try discriminate).
Qed.

(** X21: a cached token of 511 bytes or more reaches the caller of
    [ValidateLicense] cut to 511 bytes and without a terminator: the first
    511 bytes of the buffer are those of the token, none of them is NUL, and
    the buffer is untouched from index 511 on, so that what reads back as a C
    string runs on into whatever the buffer held there. *)
Theorem ValidateLicense_long_token (w : World)
    (key account broker deviceId endpointUrl : option string)
    (b : buffer) (outError : option buffer) (g : Globals) :
  reachable crack mb tps g ->
  fresh (now w) g ->
  (511 <= length (c_str (g_cachedToken g)))%nat ->
  (512 <= length b)%nat ->
  let r := ValidateLicense crack mb tps w key account broker deviceId endpointUrl
             (Some b) outError g in
  exists b',
    tokenOut r = Some b'
    /\ ret r = Returns 0
    /\ length b' = length b
    /\ take 511 b' = take 511 (c_str (g_cachedToken g))
    /\ drop 511 b' = drop 511 b
    /\ Forall (fun c => c <> NUL) (take 511 b')
    /\ read_c_string b'
       = take 511 (c_str (g_cachedToken g)) ++ read_c_string (drop 511 b).
Proof.
  intros Hr Hf Hlong Hbuf r. pose proof Hf as [Htok _].
  destruct (reachable_well_formed crack mb tps g Hr) as (_ & Hinit & _).
  destruct (Hinit Htok) as [Hi _].
  apply fresh_test in Hf. subst r. unfold ValidateLicense.
  rewrite Hi, Hf. simpl.
  set (src := c_str (g_cachedToken g)) in *.
  assert (Hfree : Forall (fun c => Ascii.eqb c NUL = false) (take 511 src))
    by (apply Forall_take, c_str_NUL_free).
  assert (Hcopy : strncpy b src 511 = take 511 src ++ drop 511 b)
    by (unfold strncpy; rewrite resize_le by lia; reflexivity).
  assert (Hlen : length (take 511 src) = 511%nat) by (rewrite length_take; lia).
  exists (strncpy b src 511). rewrite Hcopy.
  split; [reflexivity|]. split; [reflexivity|].
  split; [rewrite length_app, length_drop; lia|].
  split; [apply take_app_length'; lia|].
  split; [apply drop_app_length'; lia|].
  split.
  - rewrite take_app_length' by lia.
    eapply Forall_impl; [exact Hfree|]. intros c Hc. apply Ascii.eqb_neq. assumption.
  - apply read_c_string_app. assumption.
Qed.

(** X12: an override URL that parses becomes the active endpoint for this call
    and the calls that follow, but it is not remembered as the configured
    URL: after a shutdown and a new initialization the active endpoint is
    again the one of the configured URL. *)
Theorem endpoint_override_is_not_remembered (w w' : World) (url : string)
    (urlComp urlComp0 : UrlComponents) (h : N)
    (key account broker deviceId : option string)
    (outToken outError : option buffer) (g : Globals) :
  reachable crack mb tps g ->
  g_initialized g = true ->
  ~ fresh (now w) g ->
  str_empty url = false ->
  Utf8ToWide mb (Some url) <> [] ->
  crack (Utf8ToWide mb (Some url)) = Some urlComp ->
  crack (g_endpointUrl g) = Some urlComp0 ->
  WinHttpOpen w' = Some h ->
  let r := ValidateLicense crack mb tps w key account broker deviceId (Some url)
             outToken outError g in
  let g2 := snd (InitializeLibrary crack w' (ShutdownLibrary (globals r))) in
  endpoint_of (globals r) = endpoint_from urlComp
  /\ g_endpointUrl (globals r) = g_endpointUrl g
  /\ g_initialized g2 = true
  /\ endpoint_of g2 = endpoint_from urlComp0.
Proof.
  intros Hr Hinit Hmiss Hurl Hwide Hc Hc0 Hopen r g2.
  destruct (ValidateLicense_lifecycle crack mb tps w key account broker deviceId
              (Some url) outToken outError g) as (Hi & _ & Hu & He).
  fold r in Hi, Hu, He.
  rewrite Hinit, (not_fresh_test _ _ Hmiss) in He.
  change (true && negb false) with true in He. cbv iota in He.
  assert (Hover : apply_endpoint_override crack mb (Some url) g
                  = set_endpoint (lpszHostName urlComp) (lpszUrlPath urlComp)
                      (nPort urlComp) (nScheme urlComp =? INTERNET_SCHEME_HTTPS) g).
  { unfold apply_endpoint_override. rewrite Hurl.
    destruct (Utf8ToWide mb (Some url)) as [|c wide] eqn:E; [congruence|].
    unfold ParseUrl. rewrite Hc. reflexivity. }
  rewrite Hover in He.
  split; [rewrite He; reflexivity|]. split; [assumption|].
  assert (Hi' : g_initialized (globals r) = true) by congruence.
  subst g2. unfold ShutdownLibrary. rewrite Hi'.
  change (negb true) with false. cbv iota.
  unfold InitializeLibrary.
  cbn [g_initialized set_initialized set_hSession set_token g_hSession g_endpointUrl].
  rewrite Hopen. cbn [g_hSession set_hSession g_endpointUrl].
  unfold ParseUrl. rewrite Hu, Hc0. split; reflexivity.
Qed.

End Validation.

(** ** The value scanner and the request sent *)

Lemma substring_one (s : string) (p : nat) (c : ascii) :
  String.get p s = Some c -> substring p 1 s = String c EmptyString.
Proof.
  revert p. induction s as [|a s IH]; intros [|p] H; simpl in *; try discriminate.
  - injection H as ->. destruct s; reflexivity.
  - apply IH. assumption.
Qed.

Lemma get_substring_Some (s : string) (n m p : nat) (c : ascii) :
  String.get p (substring n m s) = Some c ->
  (p < m)%nat /\ String.get (p + n) s = Some c.
Proof.
  intros H. destruct (le_lt_dec m p) as [Hle|Hlt].
  - rewrite substring_correct2 in H by assumption. discriminate.
  - rewrite substring_correct1 in H by assumption. auto.
Qed.

(** X4: whatever the text and the key, the scanner returns the empty string when
    the marker is absent, and otherwise either a text without any double
    quote (a string value, cut at its first quote) or a text without comma,
    closing brace, closing bracket or space (a bare value). *)
Theorem ExtractJsonValue_shape (json key : string) :
  let v := ExtractJsonValue json key in
  (String.index 0 (search_key key) json = None -> v = EmptyString)
  /\ ((forall i c, String.get i v = Some c -> c <> DQUOTE)
      \/ (forall i c, String.get i v = Some c -> is_value_char c = true)).
Proof.
  unfold ExtractJsonValue.
  destruct (String.index 0 (search_key key) json) as [keyPos|];
    [|split; [reflexivity | left; intros i c H; destruct i; discriminate H]].
  split; [discriminate|].
  set (start := advance_while is_blank json (String.length json)
                  (keyPos + String.length (search_key key))).
  destruct (String.length json <=? start)%nat;
    [left; intros i c H; destruct i; discriminate H|].
  destruct (String.get start json) as [c0|];
    [|left; intros i c H; destruct i; discriminate H].
  destruct (Ascii.eqb c0 DQUOTE).
  - destruct (String.index (S start) (String DQUOTE EmptyString) json) as [valueEnd|] eqn:Hend;
      [|left; intros i c H; destruct i; discriminate H].
    left. intros i c Hget ->.
    apply get_substring_Some in Hget as [Hlt Hget].
    apply (index_correct2 _ _ _ _ Hend (i + S start)%nat); [lia | lia |].
    apply substring_one. assumption.
  - right. intros i c Hget.
    apply get_substring_Some in Hget as [Hlt Hget].
    destruct (advance_while_stops is_value_char json (String.length json) start)
      as (_ & _ & Hrun); [lia|].
    apply (Hrun (i + start)%nat); [lia | assumption].
Qed.

Lemma RetryLoop_posts (x : nat -> HttpExchange) (body : string) (remaining : nat) :
  forall attempt l g evs l' g' evs',
    Forall (fun e => is_post e = true -> e = EvHttpPost body) evs ->
    RetryLoop x body remaining attempt l g evs = (l', g', evs') ->
    Forall (fun e => is_post e = true -> e = EvHttpPost body) evs'.
Proof.
  induction remaining as [|r IH]; simpl; intros attempt l g evs l' g' evs' Hevs H.
  - injection H as <- <- <-. assumption.
  - destruct (success l); [injection H as <- <- <-; assumption|].
    destruct (HttpPost (x attempt) l g) as [l1 g1].
    eapply IH; [|exact H].
    apply Forall_app. split; [|constructor; [reflexivity | constructor]].
    destruct (0 <? attempt)%nat; [|assumption].
    apply Forall_app. split; [assumption|].
    constructor; [discriminate | constructor].
Qed.

(** X5: every [HttpPost] made by a call of [ValidateLicense] carries the request
    built from the arguments of that call, the same on each attempt. *)
Theorem ValidateLicense_posts_request (crack : wstring -> option UrlComponents)
    (mb : string -> option wstring) (tps : positive) (w : World)
    (key account broker deviceId endpointUrl : option string)
    (outToken outError : option buffer) (g : Globals) :
  let r := ValidateLicense crack mb tps w key account broker deviceId endpointUrl
             outToken outError g in
  Forall (fun e => is_post e = true ->
                   e = EvHttpPost (request_json key account broker deviceId))
    (events r).
Proof.
  unfold ValidateLicense.
  destruct (negb (g_initialized g)); [constructor|].
  destruct (negb (str_empty (g_cachedToken g)) && (now w <? g_tokenExpiry g));
    [constructor|].
  cbn -[RetryLoop].
  destruct (RetryLoop _ _ _ _ _ _ _) as [[l g1] evs] eqn:Hloop.
  rewrite events_after_transport.
  eapply RetryLoop_posts; [|exact Hloop]. constructor.
Qed.

(** ** The further properties in the concrete setting *)

Lemma reachable_scenario_ready :
  reachable Scenario.crack Sample.mb Sample.tps Scenario.ready.
Proof. apply reachable_step, reachable_initial. Qed.

Lemma scenario_ready_not_fresh (t : Z) : ~ fresh t Scenario.ready.
Proof. intros [H _]. discriminate H. Qed.

Lemma reachable_holding_long_token :
  reachable Sample.crack Sample.mb Sample.tps Scenario.holding_long_token.
Proof. apply reachable_step, reachable_ready. Qed.

Lemma request_json_licenseKey_witness :
  ExtractJsonValue (request_json (Some "KEY-1") None None None) "licenseKey" = "KEY-1"
  /\ ExtractJsonValue
       (request_json (Some (String "a" (String DQUOTE "b"))) None None None) "licenseKey"
     = String "a" (String BACKSLASH EmptyString).
Proof.
  destruct (request_json_licenseKey (Some "KEY-1") None None None) as (_ & Hfree & _).
  destruct (request_json_licenseKey (Some (String "a" (String DQUOTE "b"))) None None None)
    as (_ & _ & Hcut).
  split.
  - apply Hfree. repeat (constructor; [discriminate|]). constructor.
  - apply (Hcut "a" "b"); [reflexivity|]. repeat (constructor; [discriminate|]). constructor.
Defined.

Lemma reachable_invariants_witness :
  reachable Sample.crack Sample.mb Sample.tps Sample.holding_token
  /\ g_hSession Sample.holding_token <> None
  /\ 0 < g_tokenTTL Sample.holding_token <= INT_MAX
  /\ exists urlComp, Sample.crack (g_endpointUrl Sample.holding_token) = Some urlComp.
Proof.
  destruct (reachable_invariants Sample.crack Sample.mb Sample.tps Sample.holding_token
              reachable_holding_token) as (Hsess & Htok & Httl & Hurl & _).
  assert (Hinit : g_initialized Sample.holding_token = true) by reflexivity.
  split; [exact reachable_holding_token|].
  split; [apply Hsess; exact Hinit|].
  split; [split; [apply Htok; reflexivity | apply Httl]|].
  apply Hurl. exact Hinit.
Defined.

Lemma ShutdownLibrary_then_ValidateLicense_witness :
  reachable Sample.crack Sample.mb Sample.tps Sample.holding_token
  /\ g_cachedToken (ShutdownLibrary Sample.holding_token) = EmptyString
  /\ g_hSession (ShutdownLibrary Sample.holding_token) = None
  /\ ret (ValidateLicense Sample.crack Sample.mb Sample.tps
            (Sample.world 5 5 (Sample.answers 200 Sample.body_valid))
            (Some "KEY1") (Some "ACC1") (Some "BROKERX") (Some "DEV1") None
            None (Some (Sample.junk 256)) (ShutdownLibrary Sample.holding_token))
     = Returns (-1).
Proof.
  destruct (ShutdownLibrary_then_ValidateLicense Sample.crack Sample.mb Sample.tps
              Sample.holding_token reachable_holding_token)
    as (_ & Hnone & Hempty & _ & _ & _ & _ & Hval).
  split; [exact reachable_holding_token|]. split; [exact Hempty|].
  split; [exact Hnone|].
  apply (Hval (Sample.world 5 5 (Sample.answers 200 Sample.body_valid))
           (Some "KEY1") (Some "ACC1") (Some "BROKERX") (Some "DEV1") None
           None (Some (Sample.junk 256))).
Defined.

Lemma DllMain_releases_witness :
  reachable Sample.crack Sample.mb Sample.tps Sample.holding_token
  /\ reachable Sample.crack Sample.mb Sample.tps
       (DllMain DLL_PROCESS_DETACH Sample.holding_token)
  /\ g_hSession (DllMain DLL_PROCESS_DETACH Sample.holding_token) = None.
Proof.
  destruct (DllMain_releases Sample.crack Sample.mb Sample.tps DLL_PROCESS_DETACH
              Sample.holding_token reachable_holding_token) as (Hreach & Hdetach & _).
  split; [exact reachable_holding_token|]. split; [exact Hreach|].
  apply (Hdetach eq_refl).
Defined.

Lemma GetTokenTTL_last_second_witness :
  fresh (now (Sample.world 599999999 0 Sample.unreachable_server)) Sample.holding_token
  /\ g_tokenExpiry Sample.holding_token
     - now (Sample.world 599999999 0 Sample.unreachable_server) < Z.pos Sample.tps
  /\ IsTokenValid (Sample.world 599999999 0 Sample.unreachable_server) Sample.holding_token = 1
  /\ GetTokenTTL Sample.tps (Sample.world 599999999 0 Sample.unreachable_server)
       Sample.holding_token = 0.
Proof.
  assert (Hf : fresh (now (Sample.world 599999999 0 Sample.unreachable_server))
                 Sample.holding_token) by (split; reflexivity).
  assert (Hs : g_tokenExpiry Sample.holding_token
               - now (Sample.world 599999999 0 Sample.unreachable_server)
               < Z.pos Sample.tps) by reflexivity.
  split; [exact Hf|]. split; [exact Hs|].
  exact (GetTokenTTL_last_second Sample.tps _ _ Hf Hs).
Defined.

Lemma GetLastError_copies_witness :
  1 <= 8 <= Z.of_nat (length (Sample.junk 16))
  /\ exists b',
       GetLastError (Some (Sample.junk 16)) 8
         (set_lastError "Failed to parse URL" Sample.ready) = Some b'
       /\ read_c_string b' = take 7 (c_str "Failed to parse URL").
Proof.
  assert (Hlen : 1 <= 8 <= Z.of_nat (length (Sample.junk 16)))
    by (split; intro H; discriminate H).
  split; [exact Hlen|].
  destruct (GetLastError_copies Sample.crack Sample.mb Sample.tps
              (Some (Sample.junk 16)) 8 (set_lastError "Failed to parse URL" Sample.ready))
    as (_ & _ & Hcopy & _).
  destruct (Hcopy (Sample.junk 16) eq_refl Hlen) as (b' & Heq & _ & _ & Hread & _).
  exists b'. split; [exact Heq | exact Hread].
Defined.

Lemma SetEndpoint_then_InitializeLibrary_witness :
  str_empty Scenario.staging_url = false
  /\ g_initialized initial = false
  /\ fst (InitializeLibrary Scenario.crack (Sample.world 0 0 Sample.unreachable_server)
            (SetEndpoint Scenario.crack Sample.mb (Some Scenario.staging_url) initial)) = 0
  /\ host (endpoint_of
             (snd (InitializeLibrary Scenario.crack
                     (Sample.world 0 0 Sample.unreachable_server)
                     (SetEndpoint Scenario.crack Sample.mb (Some Scenario.staging_url)
                        initial))))
     = widen "staging.hedge-edge.com".
Proof.
  destruct (SetEndpoint_then_InitializeLibrary Scenario.crack Sample.mb
              Scenario.staging_url
              (mkUrlComponents (widen "staging.hedge-edge.com") (widen "/validate")
                 443 INTERNET_SCHEME_HTTPS)
              (Sample.world 0 0 Sample.unreachable_server) 1%N initial
              eq_refl eq_refl eq_refl eq_refl)
    as (_ & _ & _ & Hcode & _ & _ & Hend & _).
  split; [reflexivity|]. split; [reflexivity|]. split; [exact Hcode|].
  rewrite Hend. reflexivity.
Defined.

Lemma ValidateLicense_twice_witness :
  reachable Sample.crack Sample.mb Sample.tps Sample.ready
  /\ completes_at (Sample.world 0 0 (Sample.answers 200 Sample.body_valid)) 0 200
       [Some Sample.body_valid]
  /\ let r := ValidateLicense Sample.crack Sample.mb Sample.tps
                (Sample.world 0 0 (Sample.answers 200 Sample.body_valid))
                (Some "KEY1") (Some "ACC1") (Some "BROKERX") (Some "DEV1") None
                None None Sample.ready in
     let r2 := ValidateLicense Sample.crack Sample.mb Sample.tps
                 (Sample.world 5 5 Sample.unreachable_server)
                 (Some "KEY1") (Some "ACC1") (Some "BROKERX") (Some "DEV1") None
                 (Some (Sample.junk 512)) None (globals r) in
     ret r = Returns 0
     /\ ret r2 = Returns 0
     /\ events r2 = []
     /\ tokenOut r2 = strncpy_to (Some (Sample.junk 512)) "tok-abc" 511.
Proof.
  split; [exact reachable_ready|]. split; [apply answers_completes|].
  destruct (ValidateLicense_twice Sample.crack Sample.mb Sample.tps
              (Sample.world 0 0 (Sample.answers 200 Sample.body_valid))
              (Sample.world 5 5 Sample.unreachable_server)
              (Some "KEY1") (Some "ACC1") (Some "BROKERX") (Some "DEV1") None
              (Some "KEY1") (Some "ACC1") (Some "BROKERX") (Some "DEV1") None
              None None (Some (Sample.junk 512)) None Sample.ready
              0 200 [Some Sample.body_valid]
              reachable_ready eq_refl (ready_not_fresh _)
              (answers_completes 0 0 200 Sample.body_valid)
              eq_refl eq_refl eq_refl)
    as (Hret & Hev & _ & Hout & _).
  split; [reflexivity|]. split; [exact Hret|]. split; [exact Hev | exact Hout].
Defined.


Lemma GetTokenTTL_after_store_witness :
  reachable Sample.crack Sample.mb Sample.tps Sample.ready
  /\ completes_at (Sample.world 0 7 (Sample.answers 200 Sample.body_valid)) 0 200
       [Some Sample.body_valid]
  /\ let r := ValidateLicense Sample.crack Sample.mb Sample.tps
                (Sample.world 0 7 (Sample.answers 200 Sample.body_valid))
                (Some "KEY1") (Some "ACC1") (Some "BROKERX") (Some "DEV1") None
                None None Sample.ready in
     ret r = Returns 0
     /\ GetTokenTTL Sample.tps (Sample.world 7 7 Sample.unreachable_server) (globals r)
        = g_tokenTTL (globals r)
     /\ 0 <= GetTokenTTL Sample.tps (Sample.world 123456789 0 Sample.unreachable_server)
               (globals r) <= g_tokenTTL (globals r).
Proof.
  split; [exact reachable_ready|]. split; [apply answers_completes|].
  assert (Hle1 : now_at_store (Sample.world 0 7 (Sample.answers 200 Sample.body_valid))
                 <= now (Sample.world 7 7 Sample.unreachable_server))
    by (intro H; discriminate H).
  assert (Hle2 : now_at_store (Sample.world 0 7 (Sample.answers 200 Sample.body_valid))
                 <= now (Sample.world 123456789 0 Sample.unreachable_server))
    by (intro H; discriminate H).
  destruct (GetTokenTTL_after_store Sample.crack Sample.mb Sample.tps
              (Sample.world 0 7 (Sample.answers 200 Sample.body_valid))
              (Sample.world 7 7 Sample.unreachable_server)
              (Some "KEY1") (Some "ACC1") (Some "BROKERX") (Some "DEV1") None
              None None Sample.ready 0 200 [Some Sample.body_valid]
              reachable_ready eq_refl (ready_not_fresh _)
              (answers_completes 0 7 200 Sample.body_valid) eq_refl eq_refl Hle1)
    as (_ & Hexact).
  destruct (GetTokenTTL_after_store Sample.crack Sample.mb Sample.tps
              (Sample.world 0 7 (Sample.answers 200 Sample.body_valid))
              (Sample.world 123456789 0 Sample.unreachable_server)
              (Some "KEY1") (Some "ACC1") (Some "BROKERX") (Some "DEV1") None
              None None Sample.ready 0 200 [Some Sample.body_valid]
              reachable_ready eq_refl (ready_not_fresh _)
              (answers_completes 0 7 200 Sample.body_valid) eq_refl eq_refl Hle2)
    as (Hbounds & _).
  split; [reflexivity|]. split; [apply Hexact; reflexivity | exact Hbounds].
Defined.

Lemma ValidateLicense_failure_reports_witness :
  reachable Sample.crack Sample.mb Sample.tps Sample.holding_token
  /\ let r := ValidateLicense Sample.crack Sample.mb Sample.tps
                (Sample.world 700000000 0 Sample.unreachable_server)
                (Some "KEY1") (Some "ACC1") (Some "BROKERX") (Some "DEV1") None
                None (Some (Sample.junk 256)) Sample.holding_token in
     ret r = Returns (-2)
     /\ str_empty (g_lastError (globals r)) = false
     /\ cache_of (globals r) = cache_of Sample.holding_token
     /\ attempts (events r) = 3%nat.
Proof.
  split; [exact reachable_holding_token|].
  destruct (ValidateLicense_failure_reports Sample.crack Sample.mb Sample.tps
              (Sample.world 700000000 0 Sample.unreachable_server)
              (Some "KEY1") (Some "ACC1") (Some "BROKERX") (Some "DEV1") None
              None (Some (Sample.junk 256)) Sample.holding_token reachable_holding_token)
    as (_ & _ & _ & Hrep & Hnet).
  assert (Hret : ret (ValidateLicense Sample.crack Sample.mb Sample.tps
                        (Sample.world 700000000 0 Sample.unreachable_server)
                        (Some "KEY1") (Some "ACC1") (Some "BROKERX") (Some "DEV1") None
                        None (Some (Sample.junk 256)) Sample.holding_token)
                 = Returns (-2)) by reflexivity.
  destruct (Hrep (or_introl Hret)) as (Herr & _).
  destruct (Hnet Hret) as (Hcache & Hatt).
  split; [exact Hret|]. split; [exact Herr|]. split; [exact Hcache | exact Hatt].
Defined.

Lemma ValidateLicense_long_token_witness :
  reachable Sample.crack Sample.mb Sample.tps Scenario.holding_long_token
  /\ fresh (now (Sample.world 5 5 Sample.unreachable_server)) Scenario.holding_long_token
  /\ (511 <= length (c_str (g_cachedToken Scenario.holding_long_token)))%nat
  /\ (512 <= length (Sample.junk 512))%nat
  /\ exists b',
       tokenOut (ValidateLicense Sample.crack Sample.mb Sample.tps
                   (Sample.world 5 5 Sample.unreachable_server)
                   (Some "KEY1") (Some "ACC1") (Some "BROKERX") (Some "DEV1") None
                   (Some (Sample.junk 512)) None Scenario.holding_long_token) = Some b'
       /\ Forall (fun c => c <> NUL) (take 511 b')
       /\ drop 511 b' = drop 511 (Sample.junk 512).
Proof.
  assert (Hf : fresh (now (Sample.world 5 5 Sample.unreachable_server))
                 Scenario.holding_long_token) by (split; reflexivity).
  assert (Hlong : (511 <= length (c_str (g_cachedToken Scenario.holding_long_token)))%nat)
    by (vm_compute; lia).
  assert (Hbuf : (512 <= length (Sample.junk 512))%nat) by (vm_compute; lia).
  split; [exact reachable_holding_long_token|]. split; [exact Hf|].
  split; [exact Hlong|]. split; [exact Hbuf|].
  destruct (ValidateLicense_long_token Sample.crack Sample.mb Sample.tps
              (Sample.world 5 5 Sample.unreachable_server)
              (Some "KEY1") (Some "ACC1") (Some "BROKERX") (Some "DEV1") None
              (Sample.junk 512) None Scenario.holding_long_token
              reachable_holding_long_token Hf Hlong Hbuf)
    as (b' & Hout & _ & _ & _ & Hdrop & Hfree & _).
  exists b'. split; [exact Hout|]. split; [exact Hfree | exact Hdrop].
Defined.

Lemma endpoint_override_is_not_remembered_witness :
  reachable Scenario.crack Sample.mb Sample.tps Scenario.ready
  /\ g_initialized Scenario.ready = true
  /\ Utf8ToWide Sample.mb (Some Scenario.staging_url) <> []
  /\ let r := ValidateLicense Scenario.crack Sample.mb Sample.tps
                (Sample.world 5 5 Sample.unreachable_server)
                (Some "KEY1") (Some "ACC1") (Some "BROKERX") (Some "DEV1")
                (Some Scenario.staging_url) None None Scenario.ready in
     host (endpoint_of (globals r)) = widen "staging.hedge-edge.com"
     /\ host (endpoint_of
                (snd (InitializeLibrary Scenario.crack
                        (Sample.world 9 9 Sample.unreachable_server)
                        (ShutdownLibrary (globals r)))))
        = widen "api.hedge-edge.com".
Proof.
  assert (Hwide : Utf8ToWide Sample.mb (Some Scenario.staging_url) <> [])
    by (intro H; discriminate H).
  split; [exact reachable_scenario_ready|]. split; [reflexivity|].
  split; [exact Hwide|].
  destruct (endpoint_override_is_not_remembered Scenario.crack Sample.mb Sample.tps
              (Sample.world 5 5 Sample.unreachable_server)
              (Sample.world 9 9 Sample.unreachable_server)
              Scenario.staging_url
              (mkUrlComponents (widen "staging.hedge-edge.com") (widen "/validate")
                 443 INTERNET_SCHEME_HTTPS)
              (mkUrlComponents (widen "api.hedge-edge.com") (widen "/v1/license/validate")
                 443 INTERNET_SCHEME_HTTPS)
              1%N (Some "KEY1") (Some "ACC1") (Some "BROKERX") (Some "DEV1")
              None None Scenario.ready
              reachable_scenario_ready eq_refl (scenario_ready_not_fresh _)
              eq_refl Hwide eq_refl eq_refl eq_refl)
    as (Hend & _ & _ & Hback).
  split; [rewrite Hend; reflexivity | rewrite Hback; reflexivity].
Defined.
